(** * The LDAP upstream watcher of the Pinniped supervisor

    A shallow embedding of
    [internal/controller/supervisorconfig/upstreamwatcher/ldap_upstream_watcher.go]
    and the properties of its reconcile loop: the validation of the bind
    Secret and of the TLS configuration, the connection test with its
    version trailer, the status update and the publication of the validated
    providers to the identity-provider cache. *)

From Stdlib Require Import Ascii ZArith.
From stdpp Require Import base option list strings gmap.

Local Open Scope Z_scope.

(** ** Go strings

    A Go [string] is a sequence of bytes: [string] with [+:+] for
    concatenation, which is how [fmt.Sprintf] with [%s] verbs is written
    out below. *)

Module GoString.

(** The double quote and the line feed, by their codes. *)
Definition dquote : ascii := "034"%char.
Definition newline : ascii := "010"%char.

Definition dq : string := String dquote EmptyString.

(** [quoted s] is ["%s"] inside a format string: the text between two
    literal double quotes, nothing escaped. *)
Definition quoted (s : string) : string := dq +:+ s +:+ dq.

(** [len(s) == 0] *)
Definition is_empty (s : string) : bool :=
  match s with EmptyString => true | String _ _ => false end.

Fixpoint contains_char (c : ascii) (s : string) : bool :=
  match s with
  | EmptyString => false
  | String d s' => if decide (d = c) then true else contains_char c s'
  end.

(** [strip_prefix p s] is [Some r] when [s = p +:+ r]. *)
Fixpoint strip_prefix (p s : string) : option string :=
  match p with
  | EmptyString => Some s
  | String c p' =>
      match s with
      | EmptyString => None
      | String d s' => if decide (d = c) then strip_prefix p' s' else None
      end
  end.

End GoString.

Import GoString.

(** ** The fragment of Go's [regexp] the controller uses

    Go's [regexp] returns the leftmost match and, among the matches that
    start there, the one a backtracking matcher finds first: a greedy
    [.+] takes as many characters as the rest of the pattern allows.  The
    dot matches every character but the line feed (no [s] flag).  The
    patterns of this package are sequences of literal text and of [.+],
    captured or not. *)

Module Regexp.

Inductive item : Type :=
| Lit (text : string)        (* literal text *)
| DotPlus (capture : bool).  (* [.+], or [(.+)] when [capture] *)

Definition Regexp : Type := list item.

(** A successful match: the text matched and the captured groups. *)
Definition submatch : Type := string * list string.

(** Greedy [.+] before the continuation [k]: [acc] is the text the dot
    has taken so far, [s] what is left of the input.  One more character
    is taken first; only when the rest of the pattern cannot match after
    that does the matcher stop here. *)
Fixpoint dot_plus (k : string → option submatch) (capture : bool)
    (acc s : string) : option submatch :=
  match s with
  | EmptyString => None
  | String c s' =>
      if decide (c = newline) then None
      else
        let acc' := acc +:+ String c EmptyString in
        match dot_plus k capture acc' s' with
        | Some r => Some r
        | None =>
            match k s' with
            | Some (m, groups) =>
                Some (acc' +:+ m, if capture then acc' :: groups else groups)
            | None => None
            end
        end
  end.

(** The pattern anchored at the start of the input. *)
Fixpoint match_here (re : Regexp) : string → option submatch :=
  match re with
  | [] => λ _, Some (EmptyString, [])
  | Lit text :: re' => λ s,
      match strip_prefix text s with
      | Some rest =>
          match match_here re' rest with
          | Some (m, groups) => Some (text +:+ m, groups)
          | None => None
          end
      | None => None
      end
  | DotPlus capture :: re' => dot_plus (match_here re') capture EmptyString
  end.

(** The leftmost match: every start position in turn. *)
Fixpoint find (re : Regexp) (s : string) : option submatch :=
  match match_here re s with
  | Some r => Some r
  | None =>
      match s with
      | EmptyString => None
      | String _ s' => find re s'
      end
  end.

(** [re.FindStringSubmatch(s)]: the match followed by the groups, [nil]
    when there is no match. *)
Definition FindStringSubmatch (re : Regexp) (s : string) : list string :=
  match find re s with
  | Some (m, groups) => m :: groups
  | None => []
  end.

End Regexp.

Import Regexp.

(** [regexp.MustCompile(` \[validated with Secret ".+" at version "(.+)"]`)] *)
Definition secretVersionParser : Regexp :=
  [ Lit (" [validated with Secret " +:+ dq);
    DotPlus false;
    Lit (dq +:+ " at version " +:+ dq);
    DotPlus true;
    Lit (dq +:+ "]") ].


(** ** The API objects

    The structs of [k8s.io/api/core/v1] and of the generated
    [supervisor/idp/v1alpha1] package, with the fields the controller reads
    or writes. *)

(** Go's [error]: only [err.Error()] and the identity of the requeue
    sentinel are ever observed. *)
Inductive error : Type :=
| ErrSyntheticRequeue                      (* controllerlib.ErrSyntheticRequeue *)
| errorString (msg : string)               (* errors.New(msg) *)
| wrapError (msg : string) (err : error).  (* fmt.Errorf(msg + ": %w", err) *)

Fixpoint Error (e : error) : string :=
  match e with
  | ErrSyntheticRequeue => "synthetic requeue request"
  | errorString msg => msg
  | wrapError msg err => msg +:+ ": " +:+ Error err
  end.

(** [metav1.Time], as a number of ticks. *)
Definition Time : Type := Z.

Inductive ConditionStatus : Type :=
| ConditionTrue
| ConditionFalse
| ConditionUnknown.

Global Instance ConditionStatus_eq_dec : EqDecision ConditionStatus.
Proof. solve_decision. Defined.

(** [LDAPPhasePending] is the phase of an object no sync has handled yet. *)
Inductive LDAPIdentityProviderPhase : Type :=
| LDAPPhasePending
| LDAPPhaseReady
| LDAPPhaseError.

Global Instance LDAPIdentityProviderPhase_eq_dec :
  EqDecision LDAPIdentityProviderPhase.
Proof. solve_decision. Defined.

Module Condition.
Record t : Type := mk {
  Type_ : string;
  Status : ConditionStatus;
  ObservedGeneration : Z;
  LastTransitionTime : Time;
  Reason : string;
  Message : string
}.
Global Instance eq_dec : EqDecision t.
Proof. solve_decision. Defined.
End Condition.

Module Secret.
Record t : Type := mk {
  Type_ : string;
  ResourceVersion : string;
  Data : gmap string string
}.
End Secret.

Module LDAPIdentityProviderStatus.
Record t : Type := mk {
  Phase : LDAPIdentityProviderPhase;
  Conditions : list Condition.t
}.
Global Instance eq_dec : EqDecision t.
Proof. solve_decision. Defined.
End LDAPIdentityProviderStatus.

Module LDAPIdentityProviderSpec.
Record TLSSpec : Type := mkTLS { CertificateAuthorityData : string }.
Record t : Type := mk {
  Host : string;
  TLS : option TLSSpec;                       (* a pointer, [nil] when absent *)
  Bind_SecretName : string;                   (* spec.Bind.SecretName *)
  UserSearch_Base : string;
  UserSearch_Filter : string;
  UserSearch_Attributes_Username : string;
  UserSearch_Attributes_UID : string;
  DryRunAuthenticationUsername : string
}.
Global Instance TLSSpec_eq_dec : EqDecision TLSSpec.
Proof. solve_decision. Defined.
Global Instance eq_dec : EqDecision t.
Proof. solve_decision. Defined.
End LDAPIdentityProviderSpec.

Module LDAPIdentityProvider.
Record t : Type := mk {
  Name : string;
  Namespace : string;
  Generation : Z;
  Spec : LDAPIdentityProviderSpec.t;
  Status : LDAPIdentityProviderStatus.t
}.
Global Instance eq_dec : EqDecision t.
Proof. solve_decision. Defined.
End LDAPIdentityProvider.

(** ** [internal/upstreamldap] *)

(** [upstreamldap.LDAPDialer]: an interface value, [nil] in production. *)
Inductive LDAPDialer : Type :=
| nilDialer
| injectedDialer (id : nat).

Global Instance LDAPDialer_eq_dec : EqDecision LDAPDialer.
Proof. solve_decision. Defined.

Module ProviderConfig.
Record t : Type := mk {
  Name : string;
  Host : string;
  CABundle : string;
  BindUsername : string;
  BindPassword : string;
  UserSearch_Base : string;
  UserSearch_Filter : string;
  UserSearch_UsernameAttribute : string;
  UserSearch_UIDAttribute : string;
  Dialer : LDAPDialer
}.
Global Instance eq_dec : EqDecision t.
Proof. solve_decision. Defined.
End ProviderConfig.

(** [upstreamldap.Provider], a validated provider record; [New] wraps a
    copy of the configuration. *)
Record Provider : Type := New { c : ProviderConfig.t }.

Global Instance Provider_eq_dec : EqDecision Provider.
Proof. solve_decision. Defined.

(** What [Provider.DryRunAuthenticateUser] returns: the response (its user
    name and UID, read only when [authenticated]), the flag, the error. *)
Record DryRunResult : Type := mkDryRun {
  authResponse_User_Name : string;
  authResponse_User_UID : string;
  authenticated : bool;
  dryRunErr : option error
}.

(** ** Constants *)

Definition SecretTypeBasicAuth : string := "kubernetes.io/basic-auth".
Definition BasicAuthUsernameKey : string := "username".
Definition BasicAuthPasswordKey : string := "password".

Definition typeBindSecretValid : string := "BindSecretValid".
Definition typeTLSConfigurationValid : string := "TLSConfigurationValid".
Definition typeLDAPConnectionValid : string := "LDAPConnectionValid".
Definition reasonLDAPConnectionError : string := "LDAPConnectionError".
Definition reasonAuthenticationDryRunError : string := "AuthenticationDryRunError".
Definition noTLSConfigurationMessage : string := "no TLS configuration provided".
Definition loadedTLSConfigurationMessage : string := "loaded TLS configuration".

(** Modelled from the spec: the reason constants are declared elsewhere in
    the package, next to the other watchers that share them.  The
    specification names the reasons NotFound, WrongType and
    InvalidTLSConfig; [reasonSuccess] and [reasonMissingKeys] are named
    after their identifiers. *)
Definition reasonNotFound : string := "NotFound".
Definition reasonWrongType : string := "WrongType".
Definition reasonMissingKeys : string := "MissingKeys".
Definition reasonSuccess : string := "Success".
Definition reasonInvalidTLSConfig : string := "InvalidTLSConfig".

(** Modelled from the spec: [errNoCertificates] is declared with them; it
    stands for the empty PEM parse. *)
Definition errNoCertificates : string := "no certificates found".

(** ** The world of one sync

    What the controller changes: the LDAP servers it talks to, the status
    subresources it writes through [c.client] and the snapshots it hands to
    [c.cache]. *)

Inductive LDAPCall : Type :=
| CallTestConnection (p : Provider)
| CallDryRunAuthenticateUser (p : Provider) (username : string).

Record World : Type := mkWorld {
  ldapCalls : list LDAPCall;                       (* oldest first *)
  statusUpdates : list LDAPIdentityProvider.t;     (* UpdateStatus calls *)
  cacheSnapshots : list (list Provider)            (* SetLDAPIdentityProviders calls *)
}.

(** What the login path reads from the cache: the last snapshot. *)
Definition idpCache (w : World) : list Provider :=
  default [] (last (cacheSnapshots w)).

(** State passing over the world. *)
Definition M (A : Type) : Type := World → A * World.

Global Instance M_ret : MRet M := λ A x w, (x, w).
Global Instance M_bind : MBind M := λ A B f m w, let '(a, w') := m w in f a w'.
Global Instance M_fmap : FMap M := λ A B f m w, let '(a, w') := m w in (f a, w').

(** What the controller depends on and does not own: the Go standard
    library, the LDAP servers behind [upstreamldap.Provider], the clock. *)
Record Externals : Type := mkExternals {
  base64_DecodeString : string → string + error;      (* base64.StdEncoding *)
  x509_AppendCertsFromPEM : string → bool;            (* on a fresh pool *)
  strconv_Quote : string → string;                    (* the [%q] verb *)
  ldap_TestConnection : Provider → option error;
  ldap_DryRunAuthenticateUser : Provider → string → DryRunResult;
  metav1_Now : Time
}.

(** The controller: [cache] and [client] are written through the world,
    the informers are read-only listers over the caches of the moment. *)
Record ldapWatcherController : Type := mkController {
  ldapDialer : LDAPDialer;
  ldapIdentityProviderInformer : error + list LDAPIdentityProvider.t;
  secretInformer : gmap (string * string) Secret.t    (* by namespace, name *)
}.

(** ** World operations *)

(** [c.cache.SetLDAPIdentityProviders(ps)] *)
Definition SetLDAPIdentityProviders (ps : list Provider) : M unit :=
  λ w, (tt, mkWorld (ldapCalls w) (statusUpdates w) (cacheSnapshots w ++ [ps])).

(** [c.client.IDPV1alpha1().LDAPIdentityProviders(ns).UpdateStatus(...)];
    its error is logged and dropped by the caller. *)
Definition UpdateStatus (updated : LDAPIdentityProvider.t) : M unit :=
  λ w, (tt, mkWorld (ldapCalls w) (statusUpdates w ++ [updated]) (cacheSnapshots w)).

Definition recordLDAPCall (call : LDAPCall) : M unit :=
  λ w, (tt, mkWorld (ldapCalls w ++ [call]) (statusUpdates w) (cacheSnapshots w)).

(** Modelled from the spec: [mergeConditions] and [mergeCondition] are
    declared elsewhere in the package, shared with the other watchers.
    The specification (4.E, steps 3 and 4): a condition whose type
    matches an existing condition of that type replaces it, the transition
    time updates only if the status flipped, the observed generation is set
    to the current generation of the object; the error flag is raised when
    one of the computed conditions has status False. *)
Definition mergeCondition (existing : list Condition.t) (new : Condition.t)
    : list Condition.t :=
  if existsb (λ old, bool_decide (Condition.Type_ old = Condition.Type_ new)) existing
  then
    (λ old,
       if decide (Condition.Type_ old = Condition.Type_ new) then
         if decide (Condition.Status old = Condition.Status new)
         then Condition.mk (Condition.Type_ new) (Condition.Status new)
                (Condition.ObservedGeneration new) (Condition.LastTransitionTime old)
                (Condition.Reason new) (Condition.Message new)
         else new
       else old) <$> existing
  else existing ++ [new].

Definition mergeConditions (now : Time) (conditions : list Condition.t)
    (observedGeneration : Z) (existing : list Condition.t)
    : bool * list Condition.t :=
  let stamp cond :=
    Condition.mk (Condition.Type_ cond) (Condition.Status cond)
      observedGeneration now (Condition.Reason cond) (Condition.Message cond) in
  (existsb (λ cond, bool_decide (Condition.Status cond = ConditionFalse)) conditions,
   foldl mergeCondition existing (stamp <$> conditions)).

(** ** The controller *)

Section Controller.

Context (ext : Externals).

(** A condition as the validators build it: the observed generation and
    the transition time are zero values until the merge. *)
Definition newCondition (type : string) (status : ConditionStatus)
    (reason message : string) : Condition.t :=
  Condition.mk type status 0 0 reason message.

Definition validTLSCondition (message : string) : Condition.t :=
  newCondition typeTLSConfigurationValid ConditionTrue reasonSuccess message.

Definition invalidTLSCondition (message : string) : Condition.t :=
  newCondition typeTLSConfigurationValid ConditionFalse reasonInvalidTLSConfig message.

Definition withBind (config : ProviderConfig.t) (username password : string)
    : ProviderConfig.t :=
  ProviderConfig.mk (ProviderConfig.Name config) (ProviderConfig.Host config)
    (ProviderConfig.CABundle config) username password
    (ProviderConfig.UserSearch_Base config) (ProviderConfig.UserSearch_Filter config)
    (ProviderConfig.UserSearch_UsernameAttribute config)
    (ProviderConfig.UserSearch_UIDAttribute config) (ProviderConfig.Dialer config).

Definition withCABundle (config : ProviderConfig.t) (bundle : string)
    : ProviderConfig.t :=
  ProviderConfig.mk (ProviderConfig.Name config) (ProviderConfig.Host config)
    bundle (ProviderConfig.BindUsername config) (ProviderConfig.BindPassword config)
    (ProviderConfig.UserSearch_Base config) (ProviderConfig.UserSearch_Filter config)
    (ProviderConfig.UserSearch_UsernameAttribute config)
    (ProviderConfig.UserSearch_UIDAttribute config) (ProviderConfig.Dialer config).

(** [c.secretInformer.Lister().Secrets(namespace).Get(name)] *)
Definition getSecret (c : ldapWatcherController) (namespace name : string)
    : Secret.t + error :=
  match secretInformer c !! (namespace, name) with
  | Some secret => inl secret
  | None => inr (errorString ("secret " +:+ strconv_Quote ext name +:+ " not found"))
  end.

(** [validateSecret]: the condition, the resource version of the Secret
    and the configuration as the function leaves it. *)
Definition validateSecret (c : ldapWatcherController)
    (upstream : LDAPIdentityProvider.t) (config : ProviderConfig.t)
    : Condition.t * string * ProviderConfig.t :=
  let secretName := LDAPIdentityProviderSpec.Bind_SecretName (LDAPIdentityProvider.Spec upstream) in
  match getSecret c (LDAPIdentityProvider.Namespace upstream) secretName with
  | inr err =>
      (newCondition typeBindSecretValid ConditionFalse reasonNotFound (Error err),
       EmptyString, config)
  | inl secret =>
      if negb (bool_decide (Secret.Type_ secret = SecretTypeBasicAuth)) then
        (newCondition typeBindSecretValid ConditionFalse reasonWrongType
           ("referenced Secret " +:+ strconv_Quote ext secretName +:+
            " has wrong type " +:+ strconv_Quote ext (Secret.Type_ secret) +:+
            " (should be " +:+ strconv_Quote ext SecretTypeBasicAuth +:+ ")"),
         Secret.ResourceVersion secret, config)
      else
        let config :=
          withBind config
            (default EmptyString (Secret.Data secret !! BasicAuthUsernameKey))
            (default EmptyString (Secret.Data secret !! BasicAuthPasswordKey)) in
        if is_empty (ProviderConfig.BindUsername config)
           || is_empty (ProviderConfig.BindPassword config) then
          (newCondition typeBindSecretValid ConditionFalse reasonMissingKeys
             ("referenced Secret " +:+ strconv_Quote ext secretName +:+
              " is missing required keys [" +:+
              strconv_Quote ext BasicAuthUsernameKey +:+ " " +:+
              strconv_Quote ext BasicAuthPasswordKey +:+ "]"),
           Secret.ResourceVersion secret, config)
        else
          (newCondition typeBindSecretValid ConditionTrue reasonSuccess "loaded bind secret",
           Secret.ResourceVersion secret, config)
  end.

Definition validateTLSConfig (upstream : LDAPIdentityProvider.t)
    (config : ProviderConfig.t) : Condition.t * ProviderConfig.t :=
  match LDAPIdentityProviderSpec.TLS (LDAPIdentityProvider.Spec upstream) with
  | None => (validTLSCondition noTLSConfigurationMessage, config)
  | Some tlsSpec =>
      let caData := LDAPIdentityProviderSpec.CertificateAuthorityData tlsSpec in
      if is_empty caData then
        (validTLSCondition loadedTLSConfigurationMessage, config)
      else
        match base64_DecodeString ext caData with
        | inr err =>
            (invalidTLSCondition ("certificateAuthorityData is invalid: " +:+ Error err),
             config)
        | inl bundle =>
            if negb (x509_AppendCertsFromPEM ext bundle) then
              (invalidTLSCondition
                 ("certificateAuthorityData is invalid: " +:+ errNoCertificates),
               config)
            else
              (validTLSCondition loadedTLSConfigurationMessage,
               withCABundle config bundle)
        end
  end.

Definition testConnection (upstream : LDAPIdentityProvider.t)
    (config : ProviderConfig.t) (ldapProvider : Provider)
    (currentSecretVersion : string) : M Condition.t :=
  recordLDAPCall (CallTestConnection ldapProvider);;
  match ldap_TestConnection ext ldapProvider with
  | Some err =>
      mret (newCondition typeLDAPConnectionValid ConditionFalse reasonLDAPConnectionError
        ("could not successfully connect to " +:+ quoted (ProviderConfig.Host config) +:+
         " and bind as user " +:+ quoted (ProviderConfig.BindUsername config) +:+
         ": " +:+ Error err))
  | None =>
      mret (newCondition typeLDAPConnectionValid ConditionTrue reasonSuccess
        ("successfully able to connect to " +:+ quoted (ProviderConfig.Host config) +:+
         " and bind as user " +:+ quoted (ProviderConfig.BindUsername config) +:+
         " [validated with Secret " +:+
         quoted (LDAPIdentityProviderSpec.Bind_SecretName (LDAPIdentityProvider.Spec upstream)) +:+
         " at version " +:+ quoted currentSecretVersion +:+ "]"))
  end.

Definition dryRunAuthentication (upstream : LDAPIdentityProvider.t)
    (ldapProvider : Provider) (currentSecretVersion : string) : M Condition.t :=
  let username :=
    LDAPIdentityProviderSpec.DryRunAuthenticationUsername (LDAPIdentityProvider.Spec upstream) in
  recordLDAPCall (CallDryRunAuthenticateUser ldapProvider username);;
  let result := ldap_DryRunAuthenticateUser ext ldapProvider username in
  match dryRunErr result with
  | Some err =>
      mret (newCondition typeLDAPConnectionValid ConditionFalse reasonAuthenticationDryRunError
        ("failed authentication dry run for end user " +:+ quoted username +:+
         ": " +:+ Error err))
  | None =>
      if negb (authenticated result) then
        mret (newCondition typeLDAPConnectionValid ConditionFalse reasonAuthenticationDryRunError
          ("failed authentication dry run for end user " +:+ quoted username +:+
           ": user not found"))
      else
        mret (newCondition typeLDAPConnectionValid ConditionTrue reasonSuccess
          ("successful authentication dry run for end user " +:+ quoted username +:+
           ": selected username " +:+ quoted (authResponse_User_Name result) +:+
           " and UID " +:+ quoted (authResponse_User_UID result) +:+
           " [validated with Secret " +:+
           quoted (LDAPIdentityProviderSpec.Bind_SecretName (LDAPIdentityProvider.Spec upstream)) +:+
           " at version " +:+ quoted currentSecretVersion +:+ "]"))
  end.

(** [matches := secretVersionParser.FindStringSubmatch(message)], the
    test [len(matches) != 2] and [matches[1]]. *)
Definition validatedSecretVersion (message : string) : option string :=
  match FindStringSubmatch secretVersionParser message with
  | [_; version] => Some version
  | _ => None
  end.

(** The loop over [upstream.Status.Conditions]. *)
Fixpoint hasPreviousSuccessfulCondition (conditions : list Condition.t)
    (currentGeneration : Z) (currentSecretVersion : string) : bool :=
  match conditions with
  | [] => false
  | cond :: rest =>
      if bool_decide (Condition.Type_ cond = typeLDAPConnectionValid)
         && bool_decide (Condition.Status cond = ConditionTrue)
         && bool_decide (Condition.ObservedGeneration cond = currentGeneration)
      then
        match validatedSecretVersion (Condition.Message cond) with
        | Some version =>
            if bool_decide (version = currentSecretVersion) then true
            else hasPreviousSuccessfulCondition rest currentGeneration currentSecretVersion
        | None => (* continue *)
            hasPreviousSuccessfulCondition rest currentGeneration currentSecretVersion
        end
      else hasPreviousSuccessfulCondition rest currentGeneration currentSecretVersion
  end.

Definition hasPreviousSuccessfulConditionForCurrentSpecGenerationAndSecretVersion
    (upstream : LDAPIdentityProvider.t) (currentSecretVersion : string) : bool :=
  hasPreviousSuccessfulCondition
    (LDAPIdentityProviderStatus.Conditions (LDAPIdentityProvider.Status upstream))
    (LDAPIdentityProvider.Generation upstream) currentSecretVersion.

(** [None] is the [nil] condition: nothing to update. *)
Definition validateFinishedConfig (upstream : LDAPIdentityProvider.t)
    (config : ProviderConfig.t) (currentSecretVersion : string)
    : M (option Condition.t) :=
  let ldapProvider := New config in
  if hasPreviousSuccessfulConditionForCurrentSpecGenerationAndSecretVersion
       upstream currentSecretVersion
  then mret None
  else if negb (is_empty (LDAPIdentityProviderSpec.DryRunAuthenticationUsername
                            (LDAPIdentityProvider.Spec upstream)))
  then Some <$> dryRunAuthentication upstream ldapProvider currentSecretVersion
  else Some <$> testConnection upstream config ldapProvider currentSecretVersion.

Definition withStatus (upstream : LDAPIdentityProvider.t)
    (status : LDAPIdentityProviderStatus.t) : LDAPIdentityProvider.t :=
  LDAPIdentityProvider.mk (LDAPIdentityProvider.Name upstream)
    (LDAPIdentityProvider.Namespace upstream) (LDAPIdentityProvider.Generation upstream)
    (LDAPIdentityProvider.Spec upstream) status.

(** The object [updateStatus] compares with the stored one and sends. *)
Definition updatedUpstream (upstream : LDAPIdentityProvider.t)
    (conditions : list Condition.t) : bool * LDAPIdentityProvider.t :=
  let '(hadErrorCondition, merged) :=
    mergeConditions (metav1_Now ext) conditions (LDAPIdentityProvider.Generation upstream)
      (LDAPIdentityProviderStatus.Conditions (LDAPIdentityProvider.Status upstream)) in
  (hadErrorCondition,
   withStatus upstream
     (LDAPIdentityProviderStatus.mk
        (if hadErrorCondition then LDAPPhaseError else LDAPPhaseReady) merged)).

Definition updateStatus (upstream : LDAPIdentityProvider.t)
    (conditions : list Condition.t) : M bool :=
  let '(hadErrorCondition, updated) := updatedUpstream upstream conditions in
  if bool_decide (upstream = updated) then mret hadErrorCondition
  else UpdateStatus updated;; mret hadErrorCondition.

(** The [ProviderConfig] literal at the head of [validateUpstream]. *)
Definition newProviderConfig (c : ldapWatcherController)
    (upstream : LDAPIdentityProvider.t) : ProviderConfig.t :=
  let spec := LDAPIdentityProvider.Spec upstream in
  ProviderConfig.mk (LDAPIdentityProvider.Name upstream)
    (LDAPIdentityProviderSpec.Host spec) EmptyString EmptyString EmptyString
    (LDAPIdentityProviderSpec.UserSearch_Base spec)
    (LDAPIdentityProviderSpec.UserSearch_Filter spec)
    (LDAPIdentityProviderSpec.UserSearch_Attributes_Username spec)
    (LDAPIdentityProviderSpec.UserSearch_Attributes_UID spec)
    (ldapDialer c).

Definition validateUpstream (c : ldapWatcherController)
    (upstream : LDAPIdentityProvider.t) : M (option Provider) :=
  let config := newProviderConfig c upstream in
  let '(secretValidCondition, currentSecretVersion, config) :=
    validateSecret c upstream config in
  let '(tlsValidCondition, config) := validateTLSConfig upstream config in
  let conditions := [secretValidCondition; tlsValidCondition] in
  conditions ←
    (if bool_decide (Condition.Status secretValidCondition = ConditionTrue)
        && bool_decide (Condition.Status tlsValidCondition = ConditionTrue)
     then
       finishedConfigCondition ← validateFinishedConfig upstream config currentSecretVersion;
       match finishedConfigCondition with
       | Some cond => mret (conditions ++ [cond])
       | None => mret conditions
       end
     else mret conditions);
  hadErrorCondition ← updateStatus upstream conditions;
  if hadErrorCondition : bool then mret None else mret (Some (New config)).

(** The loop of [Sync], with its two variables. *)
Fixpoint validateUpstreams (c : ldapWatcherController)
    (actualUpstreams : list LDAPIdentityProvider.t)
    (requeue : bool) (validatedUpstreams : list Provider)
    : M (bool * list Provider) :=
  match actualUpstreams with
  | [] => mret (requeue, validatedUpstreams)
  | upstream :: rest =>
      valid ← validateUpstream c upstream;
      match valid with
      | None => validateUpstreams c rest true validatedUpstreams
      | Some p => validateUpstreams c rest requeue (validatedUpstreams ++ [p])
      end
  end.

(** [Sync]: [None] is the [nil] error. *)
Definition Sync (c : ldapWatcherController) : M (option error) :=
  match ldapIdentityProviderInformer c with
  | inl err => mret (Some (wrapError "failed to list LDAPIdentityProviders" err))
  | inr actualUpstreams =>
      '(requeue, validatedUpstreams) ← validateUpstreams c actualUpstreams false [];
      SetLDAPIdentityProviders validatedUpstreams;;
      if requeue : bool then mret (Some ErrSyntheticRequeue) else mret None
  end.

End Controller.


(** ** The trailer of a success message

    The three literals of [secretVersionParser] and the trailer that
    [testConnection] and [dryRunAuthentication] append. *)

Module Trailer.

Definition opening : string := " [validated with Secret " +:+ dq.
Definition middle : string := dq +:+ " at version " +:+ dq.
Definition closing : string := dq +:+ "]".

(** [ [validated with Secret "<name>" at version "<version>"]] *)
Definition trailer (secretName version : string) : string :=
  opening +:+ secretName +:+ middle +:+ version +:+ closing.

(** The pattern from each of its items on. *)
Definition from_closing : string → option submatch :=
  match_here [Lit closing].
Definition from_version : string → option submatch :=
  match_here [DotPlus true; Lit closing].
Definition from_middle : string → option submatch :=
  match_here [Lit middle; DotPlus true; Lit closing].

(** The continuation [k] matches at no position of [s] after the first. *)
Fixpoint tails_fail (k : string → option submatch) (s : string) : Prop :=
  match s with
  | EmptyString => True
  | String _ s' => k s' = None ∧ tails_fail k s'
  end.

Definition no_newline (s : string) : Prop := contains_char newline s = false.
Definition no_dquote (s : string) : Prop := contains_char dquote s = false.

End Trailer.

(** ** What one provider goes through

    The pieces of [validateUpstream] by name, for the statements below.
    The LDAP servers answer as [ext] says, so the conditions of a provider
    do not depend on the world the sync starts from. *)

Module Run.

Definition emptyWorld : World := mkWorld [] [] [].

Section Run.
Context (ext : Externals) (c : ldapWatcherController)
        (upstream : LDAPIdentityProvider.t).

Definition secretName : string :=
  LDAPIdentityProviderSpec.Bind_SecretName (LDAPIdentityProvider.Spec upstream).

(** The Secret that [spec.bind.secretRef] names, if the informer has it. *)
Definition bindSecret : option Secret.t :=
  secretInformer c !! (LDAPIdentityProvider.Namespace upstream, secretName).

(** The entries of a Secret that [validateSecret] reads; a missing entry
    reads as the empty string. *)
Definition usernameOf (secret : Secret.t) : string :=
  default EmptyString (Secret.Data secret !! BasicAuthUsernameKey).
Definition passwordOf (secret : Secret.t) : string :=
  default EmptyString (Secret.Data secret !! BasicAuthPasswordKey).

Definition secretValidCondition : Condition.t :=
  (validateSecret ext c upstream (newProviderConfig c upstream)).1.1.

Definition currentSecretVersion : string :=
  (validateSecret ext c upstream (newProviderConfig c upstream)).1.2.

Definition configAfterSecret : ProviderConfig.t :=
  (validateSecret ext c upstream (newProviderConfig c upstream)).2.

Definition tlsValidCondition : Condition.t :=
  (validateTLSConfig ext upstream configAfterSecret).1.

Definition finishedConfig : ProviderConfig.t :=
  (validateTLSConfig ext upstream configAfterSecret).2.

Definition bothValid : bool :=
  bool_decide (Condition.Status secretValidCondition = ConditionTrue)
  && bool_decide (Condition.Status tlsValidCondition = ConditionTrue).

(** The conditions that [validateUpstream] hands to [updateStatus]. *)
Definition computedConditions : list Condition.t :=
  if bothValid then
    match (validateFinishedConfig ext upstream finishedConfig
             currentSecretVersion emptyWorld).1 with
    | Some cond => [secretValidCondition; tlsValidCondition; cond]
    | None => [secretValidCondition; tlsValidCondition]
    end
  else [secretValidCondition; tlsValidCondition].

(** One of the computed conditions has status False. *)
Definition hadErrorCondition : bool :=
  existsb (λ cond, bool_decide (Condition.Status cond = ConditionFalse))
    computedConditions.
End Run.

(** The records of the providers without an error condition, in the order
    of the list. *)
Definition validatedSet (ext : Externals) (c : ldapWatcherController)
    (ups : list LDAPIdentityProvider.t) : list Provider :=
  (λ upstream, New (finishedConfig ext c upstream))
    <$> filter (λ upstream, hadErrorCondition ext c upstream = false) ups.

(** The computed condition of a given type and status, as a predicate. *)
Definition hasFalse (conditions : list Condition.t) : Prop :=
  ∃ cond, cond ∈ conditions ∧ Condition.Status cond = ConditionFalse.

(** A previous success for this generation and this Secret version. *)
Definition previousSuccess (upstream : LDAPIdentityProvider.t)
    (version : string) (cond : Condition.t) : Prop :=
  cond ∈ LDAPIdentityProviderStatus.Conditions (LDAPIdentityProvider.Status upstream)
  ∧ Condition.Type_ cond = typeLDAPConnectionValid
  ∧ Condition.Status cond = ConditionTrue
  ∧ Condition.ObservedGeneration cond = LDAPIdentityProvider.Generation upstream
  ∧ validatedSecretVersion (Condition.Message cond) = Some version.

End Run.

(** ** The connection check by name

    Which call [validateFinishedConfig] makes when it does not skip, what
    the server answers to it, and the side conditions under which the
    trailer of a success message can be read back. *)

Module Check.

Section Check.
Context (ext : Externals) (upstream : LDAPIdentityProvider.t)
        (config : ProviderConfig.t).

Definition dryRunUsername : string :=
  LDAPIdentityProviderSpec.DryRunAuthenticationUsername (LDAPIdentityProvider.Spec upstream).

(** The one LDAP call of a validation that is not skipped. *)
Definition connectionCall : LDAPCall :=
  if is_empty dryRunUsername then CallTestConnection (New config)
  else CallDryRunAuthenticateUser (New config) dryRunUsername.

(** The server lets the bind through, or finds the dry-run user. *)
Definition serverAccepts : bool :=
  if is_empty dryRunUsername then
    match ldap_TestConnection ext (New config) with None => true | Some _ => false end
  else
    match dryRunErr (ldap_DryRunAuthenticateUser ext (New config) dryRunUsername) with
    | None => authenticated (ldap_DryRunAuthenticateUser ext (New config) dryRunUsername)
    | Some _ => false
    end.

(** The texts printed before the trailer hold no line feed. *)
Definition printable : Prop :=
  if is_empty dryRunUsername then
    Trailer.no_newline (ProviderConfig.Host config)
    ∧ Trailer.no_newline (ProviderConfig.BindUsername config)
  else
    Trailer.no_newline dryRunUsername
    ∧ Trailer.no_newline
        (authResponse_User_Name (ldap_DryRunAuthenticateUser ext (New config) dryRunUsername))
    ∧ Trailer.no_newline
        (authResponse_User_UID (ldap_DryRunAuthenticateUser ext (New config) dryRunUsername)).

End Check.

(** A Secret name and a resource version that a trailer can carry. *)
Definition trailerSafe (secretName version : string) : Prop :=
  secretName ≠ EmptyString ∧ Trailer.no_newline secretName
  ∧ version ≠ EmptyString ∧ Trailer.no_newline version ∧ Trailer.no_dquote version.

(** A stored condition records a computed one: everything but the
    transition time agrees, the observed generation being the given one. *)
Definition recorded (generation : Z) (stored cond : Condition.t) : Prop :=
  Condition.Type_ stored = Condition.Type_ cond
  ∧ Condition.Status stored = Condition.Status cond
  ∧ Condition.Reason stored = Condition.Reason cond
  ∧ Condition.Message stored = Condition.Message cond
  ∧ Condition.ObservedGeneration stored = generation.

(** A status update keeps everything but the status, and is sent only for
    a status that differs. *)
Definition updateOf (upstream update : LDAPIdentityProvider.t) : Prop :=
  LDAPIdentityProvider.Name update = LDAPIdentityProvider.Name upstream
  ∧ LDAPIdentityProvider.Namespace update = LDAPIdentityProvider.Namespace upstream
  ∧ LDAPIdentityProvider.Generation update = LDAPIdentityProvider.Generation upstream
  ∧ LDAPIdentityProvider.Spec update = LDAPIdentityProvider.Spec upstream
  ∧ LDAPIdentityProvider.Status update ≠ LDAPIdentityProvider.Status upstream
  ∧ (LDAPIdentityProviderStatus.Phase (LDAPIdentityProvider.Status update) = LDAPPhaseReady
     ∨ LDAPIdentityProviderStatus.Phase (LDAPIdentityProvider.Status update)
       = LDAPPhaseError).

Definition withLDAPCall (w : World) (call : LDAPCall) : World :=
  mkWorld (ldapCalls w ++ [call]) (statusUpdates w) (cacheSnapshots w).

(** What one provider adds to the log of LDAP calls and to the log of
    status updates. *)
Definition callsOf (ext : Externals) (c : ldapWatcherController)
    (upstream : LDAPIdentityProvider.t) (calls : list LDAPCall) : Prop :=
  (calls = []
   ∨ calls = [connectionCall upstream (Run.finishedConfig ext c upstream)])
  ∧ (calls = [] ↔
       Run.bothValid ext c upstream = false
       ∨ ∃ cond, Run.previousSuccess upstream (Run.currentSecretVersion ext c upstream) cond).

Definition updatesOf (ext : Externals) (c : ldapWatcherController)
    (upstream : LDAPIdentityProvider.t) (updates : list LDAPIdentityProvider.t) : Prop :=
  (updates = []
   ∧ upstream = (updatedUpstream ext upstream (Run.computedConditions ext c upstream)).2)
  ∨ (updates = [(updatedUpstream ext upstream (Run.computedConditions ext c upstream)).2]
     ∧ updateOf upstream
         (updatedUpstream ext upstream (Run.computedConditions ext c upstream)).2).

(** The CA bundle that [validateTLSConfig] leaves in a configuration that
    started without one, when it answers True. *)
Definition caBundleOf (ext : Externals) (upstream : LDAPIdentityProvider.t) : string :=
  match LDAPIdentityProviderSpec.TLS (LDAPIdentityProvider.Spec upstream) with
  | None => EmptyString
  | Some tlsSpec =>
      if is_empty (LDAPIdentityProviderSpec.CertificateAuthorityData tlsSpec)
      then EmptyString
      else
        match base64_DecodeString ext
                (LDAPIdentityProviderSpec.CertificateAuthorityData tlsSpec) with
        | inl bundle => bundle
        | inr _ => EmptyString
        end
  end.

End Check.

(** ** [test/integration/concierge_kubecertagent_test.go]

    The condition that [waitForAllAgentsRunning] polls, as a function of
    what listing the agent pods returns. *)

Module KubeCertAgent.

Record Pod : Type := mkPod {
  Namespace : string;
  Name : string;
  Status_Phase : string
}.

Definition PodRunning : string := "Running".

(** The loop over [pods.Items], with its variable. *)
Fixpoint allRunningLoop (items : list Pod) (allRunning : bool) : bool :=
  match items with
  | [] => allRunning
  | pod :: rest =>
      allRunningLoop rest
        (if negb (bool_decide (Status_Phase pod = PodRunning)) then false
         else allRunning)
  end.

Definition allAgentsRunning (listed : error + list Pod) : bool * option error :=
  match listed with
  | inl err => (false, Some err)
  | inr items =>
      if (length items =? 0)%nat then (false, None)
      else (allRunningLoop items true, None)
  end.

End KubeCertAgent.

(** ** Sample clusters *)

Module Sample.

(** An LDAP server that accepts the bind and knows the user. *)
Definition ext : Externals :=
  mkExternals (λ s, inl s) (λ _, true) quoted (λ _, None)
    (λ _ _, mkDryRun "pinny" "1000" true None) 7.

(** The server cannot be reached. *)
Definition extDown : Externals :=
  mkExternals (λ s, inl s) (λ _, true) quoted
    (λ _, Some (errorString "dial timeout"))
    (λ _ _, mkDryRun EmptyString EmptyString false (Some (errorString "dial timeout"))) 7.

(** The server answers and does not know the user. *)
Definition extNotFound : Externals :=
  mkExternals (λ s, inl s) (λ _, true) quoted (λ _, None)
    (λ _ _, mkDryRun EmptyString EmptyString false None) 7.

Definition secretData : gmap string string :=
  <[BasicAuthUsernameKey := "cn=admin"]> (<[BasicAuthPasswordKey := "password1"]> ∅).

Definition secret : Secret.t := Secret.mk SecretTypeBasicAuth "42" secretData.
Definition opaqueSecret : Secret.t := Secret.mk "Opaque" "42" secretData.
Definition noPasswordSecret : Secret.t :=
  Secret.mk SecretTypeBasicAuth "42" (<[BasicAuthUsernameKey := "cn=admin"]> ∅).

Definition spec (dryRunUsername : string) : LDAPIdentityProviderSpec.t :=
  LDAPIdentityProviderSpec.mk "ldap.example.com" None "bind-secret"
    "ou=users" "cn={}" "cn" "uid" dryRunUsername.

Definition upstream : LDAPIdentityProvider.t :=
  LDAPIdentityProvider.mk "idp" "ns" 3 (spec EmptyString)
    (LDAPIdentityProviderStatus.mk LDAPPhasePending []).

Definition upstreamDryRun : LDAPIdentityProvider.t :=
  LDAPIdentityProvider.mk "idp" "ns" 3 (spec "pinny")
    (LDAPIdentityProviderStatus.mk LDAPPhasePending []).

Definition controller (ups : list LDAPIdentityProvider.t) (bind : Secret.t)
    : ldapWatcherController :=
  mkController nilDialer (inr ups) {[ ("ns", "bind-secret") := bind ]}.

(** The CA data cannot be decoded, or decodes to no certificate. *)
Definition extBadBase64 : Externals :=
  mkExternals (λ _, inr (errorString "illegal base64 data at input byte 0"))
    (λ _, true) quoted (λ _, None)
    (λ _ _, mkDryRun "pinny" "1000" true None) 7.

Definition extNoCertificates : Externals :=
  mkExternals (λ s, inl s) (λ _, false) quoted (λ _, None)
    (λ _ _, mkDryRun "pinny" "1000" true None) 7.

Definition specTLS (caData : string) : LDAPIdentityProviderSpec.t :=
  LDAPIdentityProviderSpec.mk "ldap.example.com"
    (Some (LDAPIdentityProviderSpec.mkTLS caData)) "bind-secret"
    "ou=users" "cn={}" "cn" "uid" EmptyString.

Definition upstreamTLS (caData : string) : LDAPIdentityProvider.t :=
  LDAPIdentityProvider.mk "idp" "ns" 3 (specTLS caData)
    (LDAPIdentityProviderStatus.mk LDAPPhasePending []).

(** No Secret in the namespace. *)
Definition noSecretController (ups : list LDAPIdentityProvider.t)
    : ldapWatcherController :=
  mkController nilDialer (inr ups) ∅.

(** The informer of the providers fails to list. *)
Definition brokenController : ldapWatcherController :=
  mkController nilDialer (inl (errorString "informer cache is not synced")) ∅.

(** A world with a set published by an earlier sync. *)
Definition laterWorld : World :=
  mkWorld [] [] [[New (ProviderConfig.mk "old" "old.example.com" EmptyString "cn=old"
                         "password0" "ou=users" "cn={}" "cn" "uid" nilDialer)]].

Definition config : ProviderConfig.t :=
  ProviderConfig.mk "idp" "ldap.example.com" EmptyString "cn=admin" "password1"
    "ou=users" "cn={}" "cn" "uid" nilDialer.

(** The condition [testConnection] writes for a Secret at [version]. *)
Definition connected (version : string) : Condition.t :=
  (testConnection ext upstream config (New config) version Run.emptyWorld).1.

(** The provider after a sync that connected with the Secret at version
    42: the condition is stored with the generation of the object. *)
Definition validatedCondition : Condition.t :=
  Condition.mk typeLDAPConnectionValid ConditionTrue 3 5 reasonSuccess
    (Condition.Message (connected "42")).

Definition upstreamValidated : LDAPIdentityProvider.t :=
  LDAPIdentityProvider.mk "idp" "ns" 3 (spec EmptyString)
    (LDAPIdentityProviderStatus.mk LDAPPhaseReady [validatedCondition]).

(** The conditions of a sync that found everything in order, and the
    provider as that sync leaves it. *)
Definition allValid : list Condition.t :=
  Run.computedConditions ext (controller [upstream] secret) upstream.

Definition upstreamSettled : LDAPIdentityProvider.t :=
  (updatedUpstream ext upstream allValid).2.

(** The condition [testConnection] writes when the bind user name holds a
    trailer of its own and a line feed. *)
Definition forgedConfig : ProviderConfig.t :=
  ProviderConfig.mk "idp" "ldap.example.com" EmptyString
    ("cn=admin [validated with Secret " +:+ quoted "other" +:+ " at version " +:+
     quoted "1" +:+ "]" +:+ String newline EmptyString)
    "password1" "ou=users" "cn={}" "cn" "uid" nilDialer.

Definition connectedForged (version : string) : Condition.t :=
  (testConnection ext upstream forgedConfig (New forgedConfig) version Run.emptyWorld).1.

(** The condition [testConnection] writes for a provider that names no
    Secret. *)
Definition upstreamNoName : LDAPIdentityProvider.t :=
  LDAPIdentityProvider.mk "idp" "ns" 3
    (LDAPIdentityProviderSpec.mk "ldap.example.com" None EmptyString
       "ou=users" "cn={}" "cn" "uid" EmptyString)
    (LDAPIdentityProviderStatus.mk LDAPPhasePending []).

Definition connectedNoName (version : string) : Condition.t :=
  (testConnection ext upstreamNoName config (New config) version Run.emptyWorld).1.

(** A bind Secret as a lister seeded without resource versions holds it. *)
Definition unversionedSecret : Secret.t :=
  Secret.mk SecretTypeBasicAuth EmptyString secretData.

(** A resource version with a line feed, and one that quotes the words
    of the trailer. *)
Definition twoLines : string := "4" +:+ String newline "2".
Definition quoting : string := "1" +:+ dq +:+ " at version " +:+ dq +:+ "2".

End Sample.

(** * Properties *)

(** ** Strings *)

Module GoStringFacts.

Lemma app_cons (ch : ascii) (s t : string) :
  String ch s +:+ t = String ch (s +:+ t).
Proof. reflexivity. Qed.

Lemma app_empty_l (s : string) : EmptyString +:+ s = s.
Proof. reflexivity. Qed.

Lemma app_empty_r (s : string) : s +:+ EmptyString = s.
Proof. induction s as [|ch s IH]; [done|]. by rewrite app_cons, IH. Qed.

Lemma app_assoc (s t u : string) : (s +:+ t) +:+ u = s +:+ t +:+ u.
Proof. induction s as [|ch s IH]; [done|]. by rewrite !app_cons, IH. Qed.

Lemma contains_char_app (ch : ascii) (s t : string) :
  contains_char ch (s +:+ t) = contains_char ch s || contains_char ch t.
Proof.
  induction s as [|d s IH]; [done|].
  rewrite app_cons. simpl. by case_decide.
Qed.

Lemma strip_prefix_cons (ch d : ascii) (p s : string) :
  strip_prefix (String ch p) (String d s) =
    if decide (d = ch) then strip_prefix p s else None.
Proof. reflexivity. Qed.

Lemma strip_prefix_app_same (p s : string) : strip_prefix p (p +:+ s) = Some s.
Proof.
  induction p as [|ch p IH]; [done|].
  rewrite app_cons. simpl. by rewrite decide_True.
Qed.

Lemma strip_prefix_Some (p s r : string) :
  strip_prefix p s = Some r → s = p +:+ r.
Proof.
  revert s. induction p as [|ch p IH]; intros s; simpl.
  - by intros [= ->].
  - destruct s as [|d s]; [done|]. case_decide; [|done].
    intros ->%IH. by subst.
Qed.

(** A prefix of [x +:+ t] ends inside [x] or inside [t]. *)
Lemma strip_prefix_app (p x t r : string) :
  strip_prefix p (x +:+ t) = Some r →
  (∃ x', x = p +:+ x' ∧ r = x' +:+ t) ∨
  (∃ p', p = x +:+ p' ∧ strip_prefix p' t = Some r).
Proof.
  revert x. induction p as [|ch p IH]; intros x; simpl.
  - intros [= <-]. left. by exists x.
  - destruct x as [|d x].
    + rewrite app_empty_l. intros H. right. by exists (String ch p).
    + rewrite app_cons. case_decide; [subst d|done].
      intros [(x' & -> & ->)|(p' & -> & H)]%IH.
      * left. by exists x'.
      * right. by exists p'.
Qed.

End GoStringFacts.

(** ** The matcher *)

Module RegexpFacts.
Import GoStringFacts Trailer.

Lemma find_unfold (re : Regexp) (s : string) :
  find re s =
    match match_here re s with
    | Some r => Some r
    | None => match s with EmptyString => None | String _ s' => find re s' end
    end.
Proof. by destruct s. Qed.

Lemma tails_fail_suffix k (p r : string) :
  tails_fail k (p +:+ r) → tails_fail k r.
Proof.
  induction p as [|ch p IH]; [done|].
  rewrite app_cons. simpl. intros [_ H]. auto.
Qed.

(** No later position lets the rest match: [.+] fails. *)
Lemma dot_plus_fail k capture (acc s : string) :
  tails_fail k s → dot_plus k capture acc s = None.
Proof.
  revert acc. induction s as [|ch s IH]; intros acc; [done|].
  simpl. intros [Hk Hs]. case_decide; [done|].
  by rewrite IH, Hk.
Qed.

(** Greedy [.+] runs up to the last position where the rest matches. *)
Lemma dot_plus_greedy k capture (a t acc m : string) (groups : list string) :
  a ≠ EmptyString → no_newline a → tails_fail k t → k t = Some (m, groups) →
  dot_plus k capture acc (a +:+ t) =
    Some ((acc +:+ a) +:+ m,
          if capture then (acc +:+ a) :: groups else groups).
Proof.
  intros Ha Hnl Ht Hk. revert acc Ha Hnl.
  induction a as [|ch a IH]; intros acc Ha Hnl; [done|].
  rewrite app_cons. simpl.
  unfold no_newline in Hnl. simpl in Hnl.
  case_decide; [done|].
  destruct a as [|d a].
  - rewrite app_empty_l, dot_plus_fail by done. by rewrite Hk.
  - rewrite IH by done. by rewrite !app_assoc.
Qed.

(** What greedy [.+] returns is a split of the input: at least one
    character, none of them a line feed, then a match of the rest. *)
Lemma dot_plus_sound k capture (acc s : string) (r : submatch) :
  dot_plus k capture acc s = Some r →
  ∃ a t m groups,
    s = a +:+ t ∧ a ≠ EmptyString ∧ no_newline a ∧ k t = Some (m, groups)
    ∧ r = ((acc +:+ a) +:+ m, if capture then (acc +:+ a) :: groups else groups).
Proof.
  revert acc. induction s as [|ch s IH]; intros acc; [done|].
  simpl. case_decide as Hch; [done|].
  destruct (dot_plus k capture (acc +:+ String ch EmptyString) s) as [r'|] eqn:Hmore.
  - intros [= <-]. apply IH in Hmore as (a & t & m & groups & -> & Ha & Hnl & Hk & ->).
    exists (String ch a), t, m, groups. repeat split; try done.
    + unfold no_newline. simpl. by rewrite decide_False.
    + by rewrite !app_assoc.
  - destruct (k s) as [[m groups]|] eqn:Hk; [|done]. intros [= <-].
    exists (String ch EmptyString), s, m, groups. repeat split; try done.
    unfold no_newline. simpl. by rewrite decide_False.
Qed.

End RegexpFacts.

(** ** The trailer and its parser *)

Module TrailerFacts.
Import GoStringFacts Trailer RegexpFacts.

Lemma match_here_parser (s : string) :
  match_here secretVersionParser s =
    match strip_prefix opening s with
    | Some rest =>
        match dot_plus from_middle false EmptyString rest with
        | Some (m, groups) => Some (opening +:+ m, groups)
        | None => None
        end
    | None => None
    end.
Proof. reflexivity. Qed.

Lemma from_middle_unfold (s : string) :
  from_middle s =
    match strip_prefix middle s with
    | Some rest =>
        match from_version rest with
        | Some (m, groups) => Some (middle +:+ m, groups)
        | None => None
        end
    | None => None
    end.
Proof. reflexivity. Qed.

Lemma from_closing_tails : tails_fail from_closing closing.
Proof. by repeat split. Qed.

(** The captured group runs to the last closing bracket. *)
Lemma from_version_ok (version : string) :
  version ≠ EmptyString → no_newline version →
  from_version (version +:+ closing) = Some (version +:+ closing, [version]).
Proof.
  intros Hne Hnl. unfold from_version. simpl match_here.
  by rewrite (dot_plus_greedy _ true version closing EmptyString closing [])
    by (done || apply from_closing_tails).
Qed.

Lemma from_middle_ok (version : string) :
  version ≠ EmptyString → no_newline version →
  from_middle (middle +:+ version +:+ closing) =
    Some (middle +:+ version +:+ closing, [version]).
Proof.
  intros Hne Hnl.
  by rewrite from_middle_unfold, strip_prefix_app_same, from_version_ok.
Qed.

(** The middle literal starts with a double quote. *)
Lemma from_middle_not_dquote (ch : ascii) (s : string) :
  ch ≠ dquote → from_middle (String ch s) = None.
Proof.
  intros Hch. rewrite from_middle_unfold.
  unfold middle, dq. rewrite app_cons, strip_prefix_cons.
  by destruct (decide (ch = dquote)).
Qed.

Lemma from_middle_in_version (w : string) :
  no_dquote w → from_middle (w +:+ closing) = None.
Proof.
  destruct w as [|ch w]; [done|].
  unfold no_dquote. simpl. case_decide; [done|]. intros _.
  rewrite app_cons. by apply from_middle_not_dquote.
Qed.

Lemma tails_fail_in_version (w : string) :
  no_dquote w → tails_fail from_middle (w +:+ closing).
Proof.
  induction w as [|ch w IH]; intros Hw.
  - by repeat split.
  - unfold no_dquote in Hw. simpl in Hw. case_decide; [done|].
    rewrite app_cons. simpl. split; [by apply from_middle_in_version | by apply IH].
Qed.

(** Two texts without double quotes, each followed by one: they end at
    the same place. *)
Lemma strip_prefix_dquote (a version t r : string) :
  no_dquote a → no_dquote version →
  strip_prefix (a +:+ dq) (version +:+ dq +:+ t) = Some r → r = t.
Proof.
  unfold no_dquote. revert version.
  induction a as [|ch a IH]; intros [|d version]; simpl;
    rewrite ?app_cons, ?app_empty_l; simpl; intros Ha Hv;
    repeat case_decide; simplify_eq/=; try done.
  - by intros [= ->].
  - by apply IH.
Qed.

(** After the middle literal of a trailer whose version has no double
    quote, the middle literal cannot match again. *)
Lemma tails_fail_middle (version : string) :
  no_dquote version →
  tails_fail from_middle (middle +:+ version +:+ closing).
Proof.
  intros Hv.
  assert (from_middle (String dquote (version +:+ closing)) = None) as Hlast.
  { rewrite from_middle_unfold.
    change middle with (String dquote (" at version " +:+ dq)).
    rewrite strip_prefix_cons, decide_True by done.
    destruct (strip_prefix _ _) as [r|] eqn:Hr; [|done].
    apply (strip_prefix_dquote " at version " version "]" r) in Hr as ->; done. }
  change (middle +:+ version +:+ closing)
    with (String dquote (" at version " +:+ String dquote (version +:+ closing))).
  split; [by apply from_middle_not_dquote|].
  change (" at version " +:+ String dquote (version +:+ closing))
    with (String " " (String "a" (String "t" (String " " (String "v" (String "e"
           (String "r" (String "s" (String "i" (String "o" (String "n" (String " "
           (String dquote (version +:+ closing)))))))))))))).
  simpl tails_fail.
  repeat (split; [by apply from_middle_not_dquote|]).
  split; [exact Hlast|].
  split; [by apply from_middle_in_version|].
  by apply tails_fail_in_version.
Qed.

(** A match that starts at or before the trailer captures its version:
    [x] is the text from the start position up to the middle literal. *)
Lemma match_here_before (x version : string) :
  no_newline x → version ≠ EmptyString → no_newline version → no_dquote version →
  match_here secretVersionParser (x +:+ middle +:+ version +:+ closing) = None ∨
  ∃ m, match_here secretVersionParser (x +:+ middle +:+ version +:+ closing)
       = Some (m, [version]).
Proof.
  intros Hx Hne Hnl Hdq. rewrite match_here_parser.
  pose proof (tails_fail_middle version Hdq) as Htails.
  destruct (strip_prefix opening _) as [rest|] eqn:Hrest; [|by left].
  apply strip_prefix_app in Hrest as [(x' & -> & ->)|(p' & _ & Hp')].
  - destruct (decide (x' = EmptyString)) as [->|Hx'].
    + rewrite app_empty_l, dot_plus_fail by done. by left.
    + unfold no_newline in Hx. rewrite contains_char_app in Hx.
      apply orb_false_elim in Hx as [_ Hx].
      erewrite dot_plus_greedy by (done || by apply from_middle_ok).
      right. by eexists.
  - apply strip_prefix_Some in Hp'. rewrite Hp' in Htails.
    apply tails_fail_suffix in Htails. rewrite dot_plus_fail by done. by left.
Qed.

Lemma match_here_trailer (secretName version : string) :
  secretName ≠ EmptyString → no_newline secretName →
  version ≠ EmptyString → no_newline version → no_dquote version →
  match_here secretVersionParser (trailer secretName version)
  = Some (trailer secretName version, [version]).
Proof.
  intros Hn Hnnl Hne Hnl Hdq. unfold trailer.
  rewrite match_here_parser, strip_prefix_app_same.
  erewrite dot_plus_greedy
    by (done || by apply tails_fail_middle || by apply from_middle_ok).
  by rewrite app_empty_l.
Qed.

(** The leftmost match of a message that ends in a trailer. *)
Lemma find_trailer (pre secretName version : string) :
  no_newline pre → secretName ≠ EmptyString → no_newline secretName →
  version ≠ EmptyString → no_newline version → no_dquote version →
  ∃ m, find secretVersionParser (pre +:+ trailer secretName version)
       = Some (m, [version]).
Proof.
  intros Hpre Hn Hnnl Hne Hnl Hdq.
  induction pre as [|ch pre IH].
  - rewrite app_empty_l, find_unfold, match_here_trailer by done. by eexists.
  - assert (no_newline pre) as Hpre'.
    { unfold no_newline in *. simpl in Hpre. by case_decide. }
    rewrite find_unfold.
    destruct (match_here_before (String ch pre +:+ opening +:+ secretName) version)
      as [Hnone|[m Hsome]]; try done.
    { unfold no_newline in *. by rewrite !contains_char_app, Hpre, Hnnl. }
    + unfold trailer. rewrite !app_assoc in Hnone. rewrite Hnone.
      rewrite app_cons. by apply IH.
    + unfold trailer. rewrite !app_assoc in Hsome. rewrite Hsome. by eexists.
Qed.

(** A match of the parser is a trailer somewhere in the message, and the
    group is the version written in it. *)
Lemma find_sound (s m : string) (groups : list string) :
  find secretVersionParser s = Some (m, groups) →
  ∃ pre secretName version post,
    s = pre +:+ trailer secretName version +:+ post
    ∧ m = trailer secretName version ∧ groups = [version]
    ∧ secretName ≠ EmptyString ∧ no_newline secretName
    ∧ version ≠ EmptyString ∧ no_newline version.
Proof.
  induction s as [|ch s IH]; rewrite find_unfold, match_here_parser.
  - done.
  - destruct (strip_prefix opening (String ch s)) as [rest|] eqn:Hrest.
    + destruct (dot_plus from_middle false EmptyString rest) as [[m' groups']|] eqn:Hname.
      * intros [= <- <-]. apply strip_prefix_Some in Hrest as ->.
        apply dot_plus_sound in Hname
          as (secretName & t & m1 & g1 & -> & Hn & Hnnl & Hmid & [= -> ->]).
        rewrite from_middle_unfold in Hmid.
        destruct (strip_prefix middle t) as [rest|] eqn:Ht; [|done].
        apply strip_prefix_Some in Ht as ->.
        destruct (from_version rest) as [[m2 g2]|] eqn:Hver; [|done].
        injection Hmid as <- <-.
        apply dot_plus_sound in Hver
          as (version & t & m3 & g3 & -> & Hv & Hvnl & Hclose & [= -> ->]).
        unfold match_here in Hclose.
        destruct (strip_prefix closing t) as [post|] eqn:Ht; [|done].
        apply strip_prefix_Some in Ht as ->. injection Hclose as <- <-.
        exists EmptyString, secretName, version, post.
        unfold trailer. rewrite !app_empty_l, !app_empty_r, !app_assoc. done.
      * intros (pre & secretName & version & post & -> & H)%IH.
        exists (String ch pre), secretName, version, post. by rewrite app_cons.
    + intros (pre & secretName & version & post & -> & H)%IH.
      exists (String ch pre), secretName, version, post. by rewrite app_cons.
Qed.

End TrailerFacts.

(** ** The messages of the connection checks *)

Module MessageFacts.
Import GoStringFacts Trailer TrailerFacts.

Lemma validatedSecretVersion_trailer (pre secretName version : string) :
  no_newline pre → secretName ≠ EmptyString → no_newline secretName →
  version ≠ EmptyString → no_newline version → no_dquote version →
  validatedSecretVersion (pre +:+ trailer secretName version) = Some version.
Proof.
  intros. unfold validatedSecretVersion, FindStringSubmatch.
  by destruct (find_trailer pre secretName version) as [m ->].
Qed.

Lemma no_newline_app (s t : string) :
  no_newline s → no_newline t → no_newline (s +:+ t).
Proof. unfold no_newline. rewrite contains_char_app. by intros -> ->. Qed.

Lemma no_newline_quoted (s : string) : no_newline s → no_newline (quoted s).
Proof. intros. unfold quoted. by repeat apply no_newline_app. Qed.

(** The end of both success messages is the trailer. *)
Lemma trailer_eq (secretName version : string) :
  " [validated with Secret " +:+ quoted secretName +:+
  " at version " +:+ quoted version +:+ "]"
  = trailer secretName version.
Proof.
  unfold trailer, opening, middle, closing, quoted. by rewrite !app_assoc.
Qed.

End MessageFacts.

Ltac run_M :=
  unfold mbind, M_bind, fmap, M_fmap, mret, M_ret,
    recordLDAPCall, UpdateStatus, SetLDAPIdentityProviders; simpl.

(** ** The idempotency check *)

Module SkipFacts.

Lemma hasPreviousSuccessfulCondition_true (conditions : list Condition.t)
    (generation : Z) (version : string) :
  hasPreviousSuccessfulCondition conditions generation version = true ↔
  ∃ cond, cond ∈ conditions
    ∧ Condition.Type_ cond = typeLDAPConnectionValid
    ∧ Condition.Status cond = ConditionTrue
    ∧ Condition.ObservedGeneration cond = generation
    ∧ validatedSecretVersion (Condition.Message cond) = Some version.
Proof.
  induction conditions as [|cond rest IH]; simpl.
  - split; [done|]. by intros (cond & ?%elem_of_nil & _).
  - assert (hasPreviousSuccessfulCondition rest generation version = true →
            ∃ cond', cond' ∈ cond :: rest
              ∧ Condition.Type_ cond' = typeLDAPConnectionValid
              ∧ Condition.Status cond' = ConditionTrue
              ∧ Condition.ObservedGeneration cond' = generation
              ∧ validatedSecretVersion (Condition.Message cond') = Some version)
      as Hrest.
    { intros (cond' & Hin & H)%IH. exists cond'. split; [by right|done]. }
    split.
    + repeat case_bool_decide; simpl; try done.
      destruct (validatedSecretVersion _) as [v|] eqn:Hv; [|done].
      case_bool_decide; [subst v|done].
      intros _. exists cond. split; [by left|done].
    + intros (cond' & Hin & Ht & Hs & Hg & Hv).
      apply elem_of_cons in Hin as [->|Hin].
      * rewrite !bool_decide_eq_true_2 by done. simpl.
        rewrite Hv. by rewrite bool_decide_eq_true_2.
      * assert (hasPreviousSuccessfulCondition rest generation version = true)
          as -> by (apply IH; eauto 10).
        destruct (_ && _); [|done].
        destruct (validatedSecretVersion (Condition.Message cond)); [|done].
        by case_bool_decide.
Qed.

Lemma hasPrevious_iff (upstream : LDAPIdentityProvider.t) (version : string) :
  hasPreviousSuccessfulConditionForCurrentSpecGenerationAndSecretVersion upstream version
    = true
  ↔ ∃ cond, Run.previousSuccess upstream version cond.
Proof. apply hasPreviousSuccessfulCondition_true. Qed.

(** What [validateFinishedConfig] returns does not depend on the world. *)
Lemma validateFinishedConfig_fst (ext : Externals) (upstream : LDAPIdentityProvider.t)
    (config : ProviderConfig.t) (version : string) (w w' : World) :
  (validateFinishedConfig ext upstream config version w).1
  = (validateFinishedConfig ext upstream config version w').1.
Proof.
  unfold validateFinishedConfig, dryRunAuthentication, testConnection.
  destruct (hasPreviousSuccessfulConditionForCurrentSpecGenerationAndSecretVersion _ _);
    [done|].
  destruct (negb _); run_M.
  - destruct (dryRunErr _); [done|]. by destruct (negb _).
  - by destruct (ldap_TestConnection _ _).
Qed.

(** [validateFinishedConfig] returns no condition and leaves the world
    alone when there is a previous success; otherwise it makes one LDAP
    call and returns an LDAPConnectionValid condition. *)
Lemma validateFinishedConfig_cases (ext : Externals)
    (upstream : LDAPIdentityProvider.t) (config : ProviderConfig.t)
    (currentSecretVersion : string) (w : World) :
  ((validateFinishedConfig ext upstream config currentSecretVersion w).1 = None
   ↔ ∃ cond, Run.previousSuccess upstream currentSecretVersion cond)
  ∧ ((validateFinishedConfig ext upstream config currentSecretVersion w).1 = None
     → (validateFinishedConfig ext upstream config currentSecretVersion w).2 = w)
  ∧ (∀ cond,
       (validateFinishedConfig ext upstream config currentSecretVersion w).1 = Some cond
       → Condition.Type_ cond = typeLDAPConnectionValid
         ∧ ∃ call,
             ldapCalls (validateFinishedConfig ext upstream config currentSecretVersion w).2
             = ldapCalls w ++ [call]).
Proof.
  rewrite <- hasPrevious_iff.
  unfold validateFinishedConfig, dryRunAuthentication, testConnection.
  destruct (hasPreviousSuccessfulConditionForCurrentSpecGenerationAndSecretVersion _ _).
  - repeat split; try done.
  - destruct (negb (is_empty _)); run_M.
    + destruct (dryRunErr _); [|destruct (negb _)];
        (split; [done|]; split; [done|]; intros cond [= <-]; eauto).
    + destruct (ldap_TestConnection _ _);
        (split; [done|]; split; [done|]; intros cond [= <-]; eauto).
Qed.

End SkipFacts.

(** ** The status update *)

Module StatusFacts.

Lemma existsb_False (conditions : list Condition.t) :
  existsb (λ cond, bool_decide (Condition.Status cond = ConditionFalse)) conditions = true
  ↔ Run.hasFalse conditions.
Proof.
  unfold Run.hasFalse. rewrite existsb_exists. split.
  - intros (cond & Hin%list_elem_of_In & ?%bool_decide_eq_true_1). eauto.
  - intros (cond & Hin%list_elem_of_In & ?). exists cond.
    by rewrite bool_decide_eq_true_2.
Qed.

Lemma updatedUpstream_fst (ext : Externals) (upstream : LDAPIdentityProvider.t)
    (conditions : list Condition.t) :
  (updatedUpstream ext upstream conditions).1
  = existsb (λ cond, bool_decide (Condition.Status cond = ConditionFalse)) conditions.
Proof. reflexivity. Qed.

Lemma updateStatus_run (ext : Externals) (upstream : LDAPIdentityProvider.t)
    (conditions : list Condition.t) (w : World) :
  updateStatus ext upstream conditions w
  = ((updatedUpstream ext upstream conditions).1,
     if bool_decide (upstream = (updatedUpstream ext upstream conditions).2) then w
     else mkWorld (ldapCalls w)
            (statusUpdates w ++ [(updatedUpstream ext upstream conditions).2])
            (cacheSnapshots w)).
Proof.
  unfold updateStatus.
  destruct (updatedUpstream ext upstream conditions) as [had updated]. simpl.
  by case_bool_decide.
Qed.

Lemma updateStatus_frame (ext : Externals) (upstream : LDAPIdentityProvider.t)
    (conditions : list Condition.t) (w : World) :
  ldapCalls (updateStatus ext upstream conditions w).2 = ldapCalls w
  ∧ cacheSnapshots (updateStatus ext upstream conditions w).2 = cacheSnapshots w.
Proof. rewrite updateStatus_run. simpl. by case_bool_decide. Qed.

End StatusFacts.

(** ** One provider, then all of them *)

Module SyncFacts.

(** [validateUpstream], step by step. *)
Lemma validateUpstream_run (ext : Externals) (c : ldapWatcherController)
    (upstream : LDAPIdentityProvider.t) (w : World) :
  validateUpstream ext c upstream w
  = let w1 :=
      if Run.bothValid ext c upstream
      then (validateFinishedConfig ext upstream (Run.finishedConfig ext c upstream)
              (Run.currentSecretVersion ext c upstream) w).2
      else w in
    let r := updateStatus ext upstream (Run.computedConditions ext c upstream) w1 in
    (if r.1 then None else Some (New (Run.finishedConfig ext c upstream)), r.2).
Proof.
  unfold validateUpstream, Run.computedConditions, Run.bothValid,
    Run.tlsValidCondition, Run.finishedConfig, Run.secretValidCondition,
    Run.currentSecretVersion, Run.configAfterSecret.
  destruct (validateSecret ext c upstream (newProviderConfig c upstream))
    as [[secretCond version] config1]. simpl.
  destruct (validateTLSConfig ext upstream config1) as [tlsCond config2]. simpl.
  destruct (_ && _).
  - rewrite (SkipFacts.validateFinishedConfig_fst ext upstream config2 version
               Run.emptyWorld w).
    unfold mbind, M_bind, mret, M_ret.
    destruct (validateFinishedConfig ext upstream config2 version w) as [[cond|] w1];
      simpl; by destruct (updateStatus ext upstream _ w1) as [[] w2].
  - unfold mbind, M_bind, mret, M_ret.
    by destruct (updateStatus ext upstream _ w) as [[] w2].
Qed.

Lemma validateUpstream_fst (ext : Externals) (c : ldapWatcherController)
    (upstream : LDAPIdentityProvider.t) (w : World) :
  (validateUpstream ext c upstream w).1
  = if Run.hadErrorCondition ext c upstream then None
    else Some (New (Run.finishedConfig ext c upstream)).
Proof.
  rewrite validateUpstream_run. cbn [fst snd].
  by rewrite StatusFacts.updateStatus_run.
Qed.

Lemma validateFinishedConfig_frame (ext : Externals) (upstream : LDAPIdentityProvider.t)
    (config : ProviderConfig.t) (version : string) (w : World) :
  cacheSnapshots (validateFinishedConfig ext upstream config version w).2
  = cacheSnapshots w.
Proof.
  unfold validateFinishedConfig, dryRunAuthentication, testConnection.
  destruct (hasPreviousSuccessfulConditionForCurrentSpecGenerationAndSecretVersion _ _);
    [done|].
  destruct (negb _); run_M.
  - destruct (dryRunErr _); [done|]. by destruct (negb _).
  - by destruct (ldap_TestConnection _ _).
Qed.

(** Only [Sync] itself writes to the cache. *)
Lemma validateUpstream_frame (ext : Externals) (c : ldapWatcherController)
    (upstream : LDAPIdentityProvider.t) (w : World) :
  cacheSnapshots (validateUpstream ext c upstream w).2 = cacheSnapshots w.
Proof.
  rewrite validateUpstream_run. cbn [fst snd].
  destruct (StatusFacts.updateStatus_frame ext upstream
              (Run.computedConditions ext c upstream)
              (if Run.bothValid ext c upstream
               then (validateFinishedConfig ext upstream (Run.finishedConfig ext c upstream)
                       (Run.currentSecretVersion ext c upstream) w).2
               else w)) as [_ ->].
  destruct (Run.bothValid ext c upstream); [|done].
  apply validateFinishedConfig_frame.
Qed.

(** The loop of [Sync]: the flag and the list it ends with. *)
Lemma validateUpstreams_run (ext : Externals) (c : ldapWatcherController)
    (ups : list LDAPIdentityProvider.t) (requeue : bool)
    (validated : list Provider) (w : World) :
  (validateUpstreams ext c ups requeue validated w).1
  = (requeue || existsb (Run.hadErrorCondition ext c) ups,
     validated ++ Run.validatedSet ext c ups)
  ∧ cacheSnapshots (validateUpstreams ext c ups requeue validated w).2
    = cacheSnapshots w.
Proof.
  revert requeue validated w.
  induction ups as [|upstream rest IH]; intros requeue validated w.
  - simpl. unfold Run.validatedSet. simpl.
    by rewrite orb_false_r, app_nil_r.
  - simpl. unfold mbind, M_bind.
    pose proof (validateUpstream_fst ext c upstream w) as Hfst.
    pose proof (validateUpstream_frame ext c upstream w) as Hframe.
    destruct (validateUpstream ext c upstream w) as [valid w1].
    simpl in Hfst, Hframe. subst valid.
    unfold Run.validatedSet. rewrite filter_cons.
    destruct (Run.hadErrorCondition ext c upstream) eqn:Herr.
    + destruct (IH true validated w1) as [-> ->].
      rewrite decide_False by done. split; [|done].
      by rewrite orb_true_r.
    + destruct (IH requeue (validated ++ [New (Run.finishedConfig ext c upstream)]) w1)
        as [-> ->].
      rewrite decide_True by done. split; [|done].
      rewrite fmap_cons, <- app_assoc. done.
Qed.

Lemma Sync_run (ext : Externals) (c : ldapWatcherController)
    (ups : list LDAPIdentityProvider.t) (w : World) :
  ldapIdentityProviderInformer c = inr ups →
  (Sync ext c w).1
  = (if existsb (Run.hadErrorCondition ext c) ups then Some ErrSyntheticRequeue else None)
  ∧ cacheSnapshots (Sync ext c w).2 = cacheSnapshots w ++ [Run.validatedSet ext c ups].
Proof.
  intros Hlist. unfold Sync. rewrite Hlist.
  unfold mbind, M_bind.
  destruct (validateUpstreams_run ext c ups false [] w) as [Hfst Hframe].
  destruct (validateUpstreams ext c ups false [] w) as [[requeue validated] w1].
  simpl in Hfst, Hframe. injection Hfst as -> ->.
  unfold SetLDAPIdentityProviders. simpl. rewrite Hframe.
  by destruct (existsb _ _).
Qed.

Lemma existsb_hadError (ext : Externals) (c : ldapWatcherController)
    (ups : list LDAPIdentityProvider.t) :
  existsb (Run.hadErrorCondition ext c) ups = true
  ↔ ∃ upstream, upstream ∈ ups
      ∧ Run.hasFalse (Run.computedConditions ext c upstream).
Proof.
  rewrite existsb_exists. unfold Run.hadErrorCondition.
  split; intros (upstream & Hin & H); exists upstream;
    (split; [by apply list_elem_of_In|by apply StatusFacts.existsb_False]).
Qed.

End SyncFacts.

(** ** The validators *)

Module ValidatorFacts.

(** The two validators only ever say True or False. *)
Lemma validateSecret_status (ext : Externals) (c : ldapWatcherController)
    (upstream : LDAPIdentityProvider.t) (config : ProviderConfig.t) :
  let cond := (validateSecret ext c upstream config).1.1 in
  Condition.Type_ cond = typeBindSecretValid
  ∧ (Condition.Status cond = ConditionTrue ∨ Condition.Status cond = ConditionFalse).
Proof.
  unfold validateSecret.
  destruct (getSecret _ _ _ _) as [secret|err]; simpl; [|by auto].
  destruct (negb _); simpl; [by auto|].
  destruct (_ || _); simpl; by auto.
Qed.

Lemma validateTLSConfig_status (ext : Externals)
    (upstream : LDAPIdentityProvider.t) (config : ProviderConfig.t) :
  let cond := (validateTLSConfig ext upstream config).1 in
  Condition.Type_ cond = typeTLSConfigurationValid
  ∧ (Condition.Status cond = ConditionTrue ∨ Condition.Status cond = ConditionFalse).
Proof.
  unfold validateTLSConfig.
  destruct (LDAPIdentityProviderSpec.TLS _) as [tlsSpec|]; simpl; [|by auto].
  destruct (is_empty _); simpl; [by auto|].
  destruct (base64_DecodeString _ _) as [bundle|err]; simpl; [|by auto].
  destruct (negb _); simpl; by auto.
Qed.

(** One of the two is not True: the third check is not run, and the
    provider has an error condition. *)
Lemma not_both_valid (ext : Externals) (c : ldapWatcherController)
    (upstream : LDAPIdentityProvider.t) :
  Condition.Status (Run.secretValidCondition ext c upstream) ≠ ConditionTrue
  ∨ Condition.Status (Run.tlsValidCondition ext c upstream) ≠ ConditionTrue →
  Run.bothValid ext c upstream = false
  ∧ Run.computedConditions ext c upstream
    = [Run.secretValidCondition ext c upstream; Run.tlsValidCondition ext c upstream]
  ∧ Run.hadErrorCondition ext c upstream = true.
Proof.
  intros Hnot.
  assert (Run.bothValid ext c upstream = false) as Hboth.
  { unfold Run.bothValid. destruct Hnot as [H|H];
      rewrite (bool_decide_eq_false_2 _ H); [done|by rewrite andb_false_r]. }
  unfold Run.hadErrorCondition, Run.computedConditions. rewrite Hboth.
  split; [done|]. split; [done|]. simpl.
  destruct (validateSecret_status ext c upstream (newProviderConfig c upstream))
    as [_ Hs].
  destruct (validateTLSConfig_status ext upstream (Run.configAfterSecret ext c upstream))
    as [_ Ht].
  fold (Run.secretValidCondition ext c upstream) in Hs.
  fold (Run.tlsValidCondition ext c upstream) in Ht.
  destruct Hnot as [H|H].
  - destruct Hs as [Hs|Hs]; [done|]. by rewrite (bool_decide_eq_true_2 _ Hs).
  - destruct Ht as [Ht|Ht]; [done|].
    rewrite (bool_decide_eq_true_2 _ Ht). by rewrite !orb_true_r.
Qed.

End ValidatorFacts.

(** ** Merging conditions *)

Module MergeFacts.

(** The merged list holds the new condition, up to its transition time. *)
Lemma mergeCondition_new (existing : list Condition.t) (new : Condition.t) :
  ∃ cond, cond ∈ mergeCondition existing new
    ∧ Condition.Type_ cond = Condition.Type_ new
    ∧ Condition.Status cond = Condition.Status new
    ∧ Condition.Reason cond = Condition.Reason new
    ∧ Condition.Message cond = Condition.Message new
    ∧ Condition.ObservedGeneration cond = Condition.ObservedGeneration new.
Proof.
  unfold mergeCondition.
  destruct (existsb _ existing) eqn:Hex.
  - apply existsb_exists in Hex as (old & Hin%list_elem_of_In & Htype%bool_decide_eq_true_1).
    eexists. split.
    + apply list_elem_of_fmap. by exists old.
    + simpl. rewrite decide_True by done. by case_decide.
  - exists new. split; [|done]. apply elem_of_app. right. by left.
Qed.

(** Conditions of the other types stay. *)
Lemma mergeCondition_other (existing : list Condition.t) (new cond : Condition.t) :
  cond ∈ existing → Condition.Type_ cond ≠ Condition.Type_ new →
  cond ∈ mergeCondition existing new.
Proof.
  intros Hin Htype. unfold mergeCondition.
  destruct (existsb _ existing).
  - apply list_elem_of_fmap. exists cond. split; [|done]. by rewrite decide_False.
  - apply elem_of_app. by left.
Qed.

(** Conditions of types that are not merged stay, through a whole merge. *)
Lemma foldl_mergeCondition_other (news existing : list Condition.t) (cond : Condition.t) :
  cond ∈ existing →
  (∀ new, new ∈ news → Condition.Type_ new ≠ Condition.Type_ cond) →
  cond ∈ foldl mergeCondition existing news.
Proof.
  revert existing. induction news as [|new rest IH]; intros existing Hin Hother; [done|].
  simpl. apply IH.
  - apply mergeCondition_other; [done|]. intros Heq. by apply (Hother new); [left|].
  - intros new' Hin'. apply Hother. by right.
Qed.

(** Each of the merged conditions, their types distinct, is in the result. *)
Lemma foldl_mergeCondition_new (news existing : list Condition.t) (new : Condition.t) :
  NoDup (Condition.Type_ <$> news) → new ∈ news →
  ∃ cond, cond ∈ foldl mergeCondition existing news
    ∧ Condition.Type_ cond = Condition.Type_ new
    ∧ Condition.Status cond = Condition.Status new
    ∧ Condition.Reason cond = Condition.Reason new
    ∧ Condition.Message cond = Condition.Message new
    ∧ Condition.ObservedGeneration cond = Condition.ObservedGeneration new.
Proof.
  revert existing. induction news as [|first rest IH]; intros existing Hnodup Hin.
  - by apply elem_of_nil in Hin.
  - rewrite fmap_cons in Hnodup. apply NoDup_cons in Hnodup as [Hfirst Hrest].
    simpl. apply elem_of_cons in Hin as [->|Hin]; [|by apply IH].
    destruct (mergeCondition_new existing first) as (cond & Hcond & Ht & H).
    exists cond. split; [|done].
    apply foldl_mergeCondition_other; [done|].
    intros new Hnew Heq. apply Hfirst. rewrite <- Ht, <- Heq.
    apply list_elem_of_fmap. by exists new.
Qed.

Lemma NoDup_type_inj (conditions : list Condition.t) (x y : Condition.t) :
  NoDup (Condition.Type_ <$> conditions) → x ∈ conditions → y ∈ conditions →
  Condition.Type_ x = Condition.Type_ y → x = y.
Proof.
  induction conditions as [|first rest IH]; intros Hnodup Hx Hy Heq.
  - by apply elem_of_nil in Hx.
  - rewrite fmap_cons in Hnodup. apply NoDup_cons in Hnodup as [Hfirst Hrest].
    apply elem_of_cons in Hx as [->|Hx]; apply elem_of_cons in Hy as [->|Hy];
      [done| | |by apply IH].
    + destruct Hfirst. rewrite Heq. apply list_elem_of_fmap. by exists y.
    + destruct Hfirst. rewrite <- Heq. apply list_elem_of_fmap. by exists x.
Qed.

(** Merging a condition that is recorded already changes nothing. *)
Lemma mergeCondition_recorded (existing : list Condition.t) (old new : Condition.t) :
  NoDup (Condition.Type_ <$> existing) → old ∈ existing →
  Condition.Type_ old = Condition.Type_ new →
  Condition.Status old = Condition.Status new →
  Condition.Reason old = Condition.Reason new →
  Condition.Message old = Condition.Message new →
  Condition.ObservedGeneration old = Condition.ObservedGeneration new →
  mergeCondition existing new = existing.
Proof.
  intros Hnodup Hin Ht Hs Hr Hm Hg. unfold mergeCondition.
  assert (existsb (λ old', bool_decide (Condition.Type_ old' = Condition.Type_ new))
            existing = true) as ->.
  { apply existsb_exists. exists old. split; [by apply list_elem_of_In|].
    by apply bool_decide_eq_true_2. }
  rewrite <- (list_fmap_id existing) at 2.
  apply list_fmap_ext. intros i old' Hlookup.
  apply list_elem_of_lookup_2 in Hlookup.
  case_decide as Htype; [|done].
  assert (old' = old) as -> by (apply (NoDup_type_inj existing); congruence).
  rewrite decide_True by done.
  destruct old, new; simpl in *; by subst.
Qed.

Lemma foldl_mergeCondition_recorded (news existing : list Condition.t) :
  NoDup (Condition.Type_ <$> existing) →
  (∀ new, new ∈ news →
     ∃ old, old ∈ existing
       ∧ Condition.Type_ old = Condition.Type_ new
       ∧ Condition.Status old = Condition.Status new
       ∧ Condition.Reason old = Condition.Reason new
       ∧ Condition.Message old = Condition.Message new
       ∧ Condition.ObservedGeneration old = Condition.ObservedGeneration new) →
  foldl mergeCondition existing news = existing.
Proof.
  intros Hnodup. induction news as [|new rest IH]; intros Hall; [done|].
  simpl. destruct (Hall new) as (old & Hin & Ht & Hs & Hr & Hm & Hg); [by left|].
  rewrite (mergeCondition_recorded existing old new) by done.
  apply IH. intros new' Hin'. apply Hall. by right.
Qed.

(** The three facts, for [mergeConditions] with its stamp. *)
Lemma mergeConditions_records (now : Time) (conditions : list Condition.t)
    (generation : Z) (existing : list Condition.t) (cond : Condition.t) :
  NoDup (Condition.Type_ <$> conditions) → cond ∈ conditions →
  ∃ merged, merged ∈ (mergeConditions now conditions generation existing).2
    ∧ Check.recorded generation merged cond.
Proof.
  intros Hnodup Hin. unfold mergeConditions. cbn [snd].
  set (stamp := λ cond0 : Condition.t,
         Condition.mk (Condition.Type_ cond0) (Condition.Status cond0)
           generation now (Condition.Reason cond0) (Condition.Message cond0)).
  destruct (foldl_mergeCondition_new (stamp <$> conditions) existing (stamp cond))
    as (merged & Hmerged & H).
  - by rewrite <- list_fmap_compose.
  - apply list_elem_of_fmap. by exists cond.
  - exists merged. split; [exact Hmerged|exact H].
Qed.

Lemma mergeConditions_keeps (now : Time) (conditions : list Condition.t)
    (generation : Z) (existing : list Condition.t) (old : Condition.t) :
  old ∈ existing →
  (∀ cond, cond ∈ conditions → Condition.Type_ cond ≠ Condition.Type_ old) →
  old ∈ (mergeConditions now conditions generation existing).2.
Proof.
  intros Hin Hother. unfold mergeConditions. cbn [snd].
  apply foldl_mergeCondition_other; [done|].
  intros new (cond & -> & Hcond)%list_elem_of_fmap. simpl. by apply Hother.
Qed.

Lemma mergeConditions_recorded (now : Time) (conditions : list Condition.t)
    (generation : Z) (existing : list Condition.t) :
  NoDup (Condition.Type_ <$> existing) →
  (∀ cond, cond ∈ conditions →
     ∃ old, old ∈ existing ∧ Check.recorded generation old cond) →
  (mergeConditions now conditions generation existing).2 = existing.
Proof.
  intros Hnodup Hall. unfold mergeConditions. cbn [snd].
  apply foldl_mergeCondition_recorded; [done|].
  intros new (cond & -> & Hcond)%list_elem_of_fmap.
  destruct (Hall cond Hcond) as (old & Hin & H). by exists old.
Qed.

End MergeFacts.

(** * The claims *)

(** C1 (as amended).  A condition with status True that [testConnection]
    or [dryRunAuthentication] writes carries a message from which
    [secretVersionParser] reads back exactly the resource version of the
    bind Secret that the check was given, provided that the texts printed
    into the message hold no line feed, that the name of the Secret is not
    empty, and that the resource version is not empty and holds neither a
    line feed nor a double quote. *)
Theorem trailer_round_trip (ext : Externals) (upstream : LDAPIdentityProvider.t)
    (config : ProviderConfig.t) (ldapProvider : Provider)
    (version : string) (w : World) :
  Run.secretName upstream ≠ EmptyString →
  Trailer.no_newline (Run.secretName upstream) →
  version ≠ EmptyString →
  Trailer.no_newline version →
  Trailer.no_dquote version →
  (Trailer.no_newline (ProviderConfig.Host config) →
   Trailer.no_newline (ProviderConfig.BindUsername config) →
   ∀ cond, cond = (testConnection ext upstream config ldapProvider version w).1 →
     Condition.Type_ cond = typeLDAPConnectionValid →
     Condition.Status cond = ConditionTrue →
     validatedSecretVersion (Condition.Message cond) = Some version)
  ∧
  (let username :=
     LDAPIdentityProviderSpec.DryRunAuthenticationUsername (LDAPIdentityProvider.Spec upstream) in
   let result := ldap_DryRunAuthenticateUser ext ldapProvider username in
   Trailer.no_newline username →
   Trailer.no_newline (authResponse_User_Name result) →
   Trailer.no_newline (authResponse_User_UID result) →
   ∀ cond, cond = (dryRunAuthentication ext upstream ldapProvider version w).1 →
     Condition.Type_ cond = typeLDAPConnectionValid →
     Condition.Status cond = ConditionTrue →
     validatedSecretVersion (Condition.Message cond) = Some version).
Proof.
  intros Hname Hnamenl Hver Hvernl Hverdq. split.
  - intros Hhost Huser cond -> _. unfold testConnection. run_M.
    destruct (ldap_TestConnection ext ldapProvider) as [err|]; simpl; [done|].
    intros _.
    rewrite MessageFacts.trailer_eq.
    rewrite <- !GoStringFacts.app_assoc.
    apply MessageFacts.validatedSecretVersion_trailer; try done.
    repeat apply MessageFacts.no_newline_app;
      done || by apply MessageFacts.no_newline_quoted.
  - intros username result Huser Hrname Hruid cond -> _.
    unfold dryRunAuthentication. run_M. fold username. fold result.
    destruct (dryRunErr result) as [err|]; simpl; [done|].
    destruct (authenticated result); simpl; [|done].
    intros _.
    rewrite MessageFacts.trailer_eq.
    rewrite <- !GoStringFacts.app_assoc.
    apply MessageFacts.validatedSecretVersion_trailer; try done.
    repeat apply MessageFacts.no_newline_app;
      done || by apply MessageFacts.no_newline_quoted.
Qed.

Lemma trailer_round_trip_witness :
  validatedSecretVersion (Condition.Message (Sample.connected "42")) = Some "42"
  ∧ validatedSecretVersion
      (Condition.Message
         (dryRunAuthentication Sample.ext Sample.upstreamDryRun
            (New Sample.config) "42" Run.emptyWorld).1) = Some "42".
Proof.
  split.
  - destruct (trailer_round_trip Sample.ext Sample.upstream Sample.config
                (New Sample.config) "42" Run.emptyWorld) as [Htest _];
      [by vm_compute..|].
    apply Htest; reflexivity || by vm_compute.
  - destruct (trailer_round_trip Sample.ext Sample.upstreamDryRun Sample.config
                (New Sample.config) "42" Run.emptyWorld) as [_ Hdry];
      [by vm_compute..|].
    apply Hdry; reflexivity || by vm_compute.
Defined.

(** C1 as stated fails.  A successful connection test against a Secret
    whose resource version is empty or holds a line feed writes a message
    from which the parser reads nothing, and so does an empty Secret name;
    a version that quotes the words of the trailer, or a bind user name
    with a trailer of its own before a line feed, makes it read another
    version.  The first case is reached from [validateUpstream] with a
    Secret whose resource version is empty. *)
Lemma trailer_round_trip_counterexample :
  (Condition.Status (Sample.connected EmptyString) = ConditionTrue
   ∧ validatedSecretVersion (Condition.Message (Sample.connected EmptyString)) = None)
  ∧ (Condition.Status (Sample.connected Sample.twoLines) = ConditionTrue
     ∧ validatedSecretVersion (Condition.Message (Sample.connected Sample.twoLines)) = None)
  ∧ (Condition.Status (Sample.connected Sample.quoting) = ConditionTrue
     ∧ validatedSecretVersion (Condition.Message (Sample.connected Sample.quoting))
       = Some "2")
  ∧ (Condition.Status (Sample.connectedForged "42") = ConditionTrue
     ∧ validatedSecretVersion (Condition.Message (Sample.connectedForged "42"))
       = Some "1")
  ∧ (Condition.Status (Sample.connectedNoName "42") = ConditionTrue
     ∧ validatedSecretVersion (Condition.Message (Sample.connectedNoName "42")) = None)
  ∧ (Run.computedConditions Sample.ext
       (Sample.controller [Sample.upstream] Sample.unversionedSecret) Sample.upstream
     !! 2%nat = Some (Sample.connected EmptyString)).
Proof. by vm_compute. Qed.

(** C2.  For a provider whose BindSecretValid and TLSConfigurationValid
    conditions are both True, the network validation is skipped,
    [validateFinishedConfig] returning no condition and [validateUpstream]
    calling no LDAP server and computing the two conditions only, exactly
    when the status of the object holds a condition of type
    LDAPConnectionValid with status True, with the current generation as
    its observed generation, and with a message whose trailer parses to the
    resource version of the bind Secret as observed now. *)
Theorem validateFinishedConfig_skip_iff (ext : Externals) (c : ldapWatcherController)
    (upstream : LDAPIdentityProvider.t) (w : World) :
  Condition.Status (Run.secretValidCondition ext c upstream) = ConditionTrue →
  Condition.Status (Run.tlsValidCondition ext c upstream) = ConditionTrue →
  let version := Run.currentSecretVersion ext c upstream in
  let check :=
    validateFinishedConfig ext upstream (Run.finishedConfig ext c upstream) version w in
  (check.1 = None ↔ ∃ cond, Run.previousSuccess upstream version cond)
  ∧ (check.1 = None → check.2 = w)
  ∧ (ldapCalls (validateUpstream ext c upstream w).2 = ldapCalls w
     ↔ ∃ cond, Run.previousSuccess upstream version cond)
  ∧ (Run.computedConditions ext c upstream
       = [Run.secretValidCondition ext c upstream; Run.tlsValidCondition ext c upstream]
     ↔ ∃ cond, Run.previousSuccess upstream version cond).
Proof.
  intros Hsecret Htls version check.
  destruct (SkipFacts.validateFinishedConfig_cases ext upstream
              (Run.finishedConfig ext c upstream) version w) as (Hiff & Hskip & Hcall).
  fold check in Hiff, Hskip, Hcall.
  assert (Run.bothValid ext c upstream = true) as Hboth.
  { unfold Run.bothValid. by rewrite !bool_decide_eq_true_2. }
  split; [done|]. split; [done|]. split.
  - rewrite SyncFacts.validateUpstream_run. cbn [fst snd]. rewrite Hboth.
    fold version. fold check.
    destruct (StatusFacts.updateStatus_frame ext upstream
                (Run.computedConditions ext c upstream) check.2) as [-> _].
    rewrite <- Hiff. destruct check.1 as [cond|] eqn:Hcheck.
    + destruct (Hcall cond eq_refl) as (_ & call & ->). split; [|done].
      intros Heq. apply (f_equal length) in Heq. rewrite length_app in Heq.
      simpl in Heq. lia.
    + by rewrite Hskip.
  - rewrite <- Hiff. unfold Run.computedConditions. rewrite Hboth.
    rewrite (SkipFacts.validateFinishedConfig_fst ext upstream _ _ Run.emptyWorld w).
    fold version. fold check. by destruct check.1.
Qed.

Lemma validateFinishedConfig_skip_iff_witness :
  ldapCalls
    (validateUpstream Sample.ext
       (Sample.controller [Sample.upstreamValidated] Sample.secret)
       Sample.upstreamValidated Run.emptyWorld).2 = [].
Proof.
  destruct (validateFinishedConfig_skip_iff Sample.ext
              (Sample.controller [Sample.upstreamValidated] Sample.secret)
              Sample.upstreamValidated Run.emptyWorld)
    as (_ & _ & Hcalls & _); [reflexivity..|].
  apply Hcalls. exists Sample.validatedCondition.
  unfold Run.previousSuccess. repeat split; first [by left | by vm_compute].
Defined.

(** C3.  When the lister returns a list of providers, one [Sync] hands the
    cache one snapshot, which replaces whatever it held: the records of
    exactly the providers whose computed conditions hold no False, in the
    order of the list (none for the empty list).  [Sync] returns the
    synthetic requeue exactly when a provider had a False condition, and no
    error otherwise. *)
Theorem Sync_publishes_validated (ext : Externals) (c : ldapWatcherController)
    (ups : list LDAPIdentityProvider.t) (w : World) :
  ldapIdentityProviderInformer c = inr ups →
  cacheSnapshots (Sync ext c w).2 = cacheSnapshots w ++ [Run.validatedSet ext c ups]
  ∧ idpCache (Sync ext c w).2 = Run.validatedSet ext c ups
  ∧ (∀ p, p ∈ idpCache (Sync ext c w).2 ↔
       ∃ upstream, upstream ∈ ups
         ∧ ¬ Run.hasFalse (Run.computedConditions ext c upstream)
         ∧ (validateUpstream ext c upstream w).1 = Some p)
  ∧ ((Sync ext c w).1 = Some ErrSyntheticRequeue ↔
       ∃ upstream, upstream ∈ ups
         ∧ Run.hasFalse (Run.computedConditions ext c upstream))
  ∧ ((Sync ext c w).1 = None ↔
       ∀ upstream, upstream ∈ ups
         → ¬ Run.hasFalse (Run.computedConditions ext c upstream))
  ∧ (ups = [] → idpCache (Sync ext c w).2 = [] ∧ (Sync ext c w).1 = None).
Proof.
  intros Hlist.
  destruct (SyncFacts.Sync_run ext c ups w Hlist) as [Hres Hcache].
  assert (idpCache (Sync ext c w).2 = Run.validatedSet ext c ups) as Hidp.
  { unfold idpCache. by rewrite Hcache, last_snoc. }
  split; [done|]. split; [done|]. split; [|split; [|split]].
  - intros p. rewrite Hidp. unfold Run.validatedSet.
    rewrite list_elem_of_fmap. split.
    + intros (upstream & -> & [Herr Hin]%list_elem_of_filter).
      exists upstream. split; [done|].
      rewrite SyncFacts.validateUpstream_fst, Herr. split; [|done].
      rewrite <- StatusFacts.existsb_False. fold (Run.hadErrorCondition ext c upstream).
      by rewrite Herr.
    + intros (upstream & Hin & Hno & Hp).
      rewrite SyncFacts.validateUpstream_fst in Hp.
      destruct (Run.hadErrorCondition ext c upstream) eqn:Herr; [done|].
      injection Hp as <-. exists upstream. split; [done|].
      by apply list_elem_of_filter.
  - rewrite Hres, <- SyncFacts.existsb_hadError. by destruct (existsb _ _).
  - rewrite Hres.
    destruct (existsb _ _) eqn:Hex.
    + split; [done|]. intros Hall.
      apply SyncFacts.existsb_hadError in Hex as (upstream & Hin & Hfalse).
      by destruct (Hall upstream).
    + split; [|done]. intros _ upstream Hin Hfalse.
      assert (existsb (Run.hadErrorCondition ext c) ups = true) as Htrue
        by (apply SyncFacts.existsb_hadError; eauto).
      by rewrite Htrue in Hex.
  - intros ->. by rewrite Hidp, Hres.
Qed.

Lemma Sync_publishes_validated_witness :
  idpCache (Sync Sample.ext (Sample.controller [Sample.upstream] Sample.secret)
              Run.emptyWorld).2
  = [New Sample.config]
  ∧ (Sync Sample.ext (Sample.controller [Sample.upstream] Sample.secret)
       Run.emptyWorld).1 = None.
Proof.
  destruct (Sync_publishes_validated Sample.ext
              (Sample.controller [Sample.upstream] Sample.secret)
              [Sample.upstream] Run.emptyWorld eq_refl)
    as (_ & Hcache & _ & _ & Hnone & _).
  split.
  - rewrite Hcache. by vm_compute.
  - apply Hnone. intros upstream ->%list_elem_of_singleton.
    intros (cond & Hin & Hfalse). revert Hin Hfalse. vm_compute.
    intros Hin. repeat (apply elem_of_cons in Hin as [->|Hin]; [done|]).
    by apply elem_of_nil in Hin.
Defined.

(** C4 (as amended).  When the bind Secret exists and has a type other
    than basic-auth, BindSecretValid is False with reason WrongType, the
    object built for the status update has phase Error and carries that
    condition, and the sync returns the synthetic requeue: it is run again
    after a backoff, whether or not a new event arrives. *)
Theorem wrong_secret_type_requeues (ext : Externals) (c : ldapWatcherController)
    (ups : list LDAPIdentityProvider.t) (upstream : LDAPIdentityProvider.t)
    (secret : Secret.t) (w : World) :
  ldapIdentityProviderInformer c = inr ups →
  upstream ∈ ups →
  Run.bindSecret c upstream = Some secret →
  Secret.Type_ secret ≠ SecretTypeBasicAuth →
  let updated :=
    (updatedUpstream ext upstream (Run.computedConditions ext c upstream)).2 in
  Condition.Type_ (Run.secretValidCondition ext c upstream) = typeBindSecretValid
  ∧ Condition.Status (Run.secretValidCondition ext c upstream) = ConditionFalse
  ∧ Condition.Reason (Run.secretValidCondition ext c upstream) = reasonWrongType
  ∧ LDAPIdentityProviderStatus.Phase (LDAPIdentityProvider.Status updated) = LDAPPhaseError
  ∧ (∃ cond,
       cond ∈ LDAPIdentityProviderStatus.Conditions (LDAPIdentityProvider.Status updated)
       ∧ Condition.Type_ cond = typeBindSecretValid
       ∧ Condition.Status cond = ConditionFalse
       ∧ Condition.Reason cond = reasonWrongType)
  ∧ (validateUpstream ext c upstream w).1 = None
  ∧ (Sync ext c w).1 = Some ErrSyntheticRequeue.
Proof.
  intros Hlist Hin Hsecret Htype updated.
  assert (Condition.Type_ (Run.secretValidCondition ext c upstream) = typeBindSecretValid
          ∧ Condition.Status (Run.secretValidCondition ext c upstream) = ConditionFalse
          ∧ Condition.Reason (Run.secretValidCondition ext c upstream) = reasonWrongType)
    as (Ht & Hs & Hr).
  { unfold Run.secretValidCondition, validateSecret, getSecret.
    unfold Run.bindSecret, Run.secretName in Hsecret. rewrite Hsecret.
    by rewrite (bool_decide_eq_false_2 _ Htype). }
  destruct (ValidatorFacts.not_both_valid ext c upstream) as (_ & Hconds & Herr).
  { left. by rewrite Hs. }
  destruct (ValidatorFacts.validateTLSConfig_status ext upstream
              (Run.configAfterSecret ext c upstream)) as [Htt _].
  fold (Run.tlsValidCondition ext c upstream) in Htt.
  repeat split; try done.
  - subst updated. unfold updatedUpstream. simpl.
    fold (Run.hadErrorCondition ext c upstream). by rewrite Herr.
  - subst updated. unfold updatedUpstream. simpl. rewrite Hconds. simpl.
    destruct (MergeFacts.mergeCondition_new
                (LDAPIdentityProviderStatus.Conditions (LDAPIdentityProvider.Status upstream))
                (Condition.mk
                   (Condition.Type_ (Run.secretValidCondition ext c upstream))
                   (Condition.Status (Run.secretValidCondition ext c upstream))
                   (LDAPIdentityProvider.Generation upstream) (metav1_Now ext)
                   (Condition.Reason (Run.secretValidCondition ext c upstream))
                   (Condition.Message (Run.secretValidCondition ext c upstream))))
      as (cond & Hcond & Hct & Hcs & Hcr & _).
    simpl in Hct, Hcs, Hcr.
    exists cond. split; [|by rewrite Hct, Hcs, Hcr].
    apply MergeFacts.mergeCondition_other; [done|].
    simpl. by rewrite Hct, Ht, Htt.
  - by rewrite SyncFacts.validateUpstream_fst, Herr.
  - destruct (SyncFacts.Sync_run ext c ups w Hlist) as [-> _].
    assert (existsb (Run.hadErrorCondition ext c) ups = true) as ->; [|done].
    apply existsb_exists. exists upstream. split; [by apply list_elem_of_In|done].
Qed.

Lemma wrong_secret_type_requeues_witness :
  Condition.Status
    (Run.secretValidCondition Sample.ext
       (Sample.controller [Sample.upstream] Sample.opaqueSecret) Sample.upstream)
  = ConditionFalse
  ∧ (Sync Sample.ext (Sample.controller [Sample.upstream] Sample.opaqueSecret)
       Run.emptyWorld).1 = Some ErrSyntheticRequeue.
Proof.
  destruct (wrong_secret_type_requeues Sample.ext
              (Sample.controller [Sample.upstream] Sample.opaqueSecret)
              [Sample.upstream] Sample.upstream Sample.opaqueSecret Run.emptyWorld)
    as (_ & Hfalse & _ & _ & _ & _ & Hrequeue).
  - reflexivity.
  - by left.
  - by vm_compute.
  - by vm_compute.
  - by split.
Defined.

(** C4 as stated fails: one provider whose bind Secret has type Opaque; the
    condition is False with reason WrongType and the sync asks for a
    requeue. *)
Lemma wrong_secret_type_counterexample :
  Run.bindSecret (Sample.controller [Sample.upstream] Sample.opaqueSecret) Sample.upstream
  = Some Sample.opaqueSecret
  ∧ Secret.Type_ Sample.opaqueSecret ≠ SecretTypeBasicAuth
  ∧ Condition.Status
      (Run.secretValidCondition Sample.ext
         (Sample.controller [Sample.upstream] Sample.opaqueSecret) Sample.upstream)
    = ConditionFalse
  ∧ (Sync Sample.ext (Sample.controller [Sample.upstream] Sample.opaqueSecret)
       Run.emptyWorld).1 = Some ErrSyntheticRequeue.
Proof. by vm_compute. Qed.

(** C5 (as amended).  [validateSecret] yields BindSecretValid with status
    True exactly when the referenced Secret exists, has type basic-auth and
    has non-empty username and password entries.  An absent Secret gives
    False with reason NotFound, a Secret of another type False with reason
    WrongType, and a basic-auth Secret with a missing or empty username or
    password False with the reason of its own, [reasonMissingKeys].  The
    resource version of the Secret is returned whenever it exists. *)
Theorem validateSecret_condition (ext : Externals) (c : ldapWatcherController)
    (upstream : LDAPIdentityProvider.t) :
  let cond := Run.secretValidCondition ext c upstream in
  Condition.Type_ cond = typeBindSecretValid
  ∧ (Condition.Status cond = ConditionTrue ↔
       ∃ secret, Run.bindSecret c upstream = Some secret
         ∧ Secret.Type_ secret = SecretTypeBasicAuth
         ∧ Run.usernameOf secret ≠ EmptyString
         ∧ Run.passwordOf secret ≠ EmptyString)
  ∧ (Run.bindSecret c upstream = None →
       Condition.Status cond = ConditionFalse ∧ Condition.Reason cond = reasonNotFound)
  ∧ (∀ secret, Run.bindSecret c upstream = Some secret →
       Secret.Type_ secret ≠ SecretTypeBasicAuth →
       Condition.Status cond = ConditionFalse ∧ Condition.Reason cond = reasonWrongType)
  ∧ (∀ secret, Run.bindSecret c upstream = Some secret →
       Secret.Type_ secret = SecretTypeBasicAuth →
       Run.usernameOf secret = EmptyString ∨ Run.passwordOf secret = EmptyString →
       Condition.Status cond = ConditionFalse ∧ Condition.Reason cond = reasonMissingKeys)
  ∧ (∀ secret, Run.bindSecret c upstream = Some secret →
       Run.currentSecretVersion ext c upstream = Secret.ResourceVersion secret).
Proof.
  unfold Run.secretValidCondition, Run.currentSecretVersion, Run.bindSecret,
    Run.secretName, Run.usernameOf, Run.passwordOf, validateSecret, getSecret.
  destruct (secretInformer c !! _) as [secret|]; simpl.
  - case_bool_decide as Htype; simpl.
    + destruct (default EmptyString (Secret.Data secret !! BasicAuthUsernameKey))
        as [|u us] eqn:Hu;
      destruct (default EmptyString (Secret.Data secret !! BasicAuthPasswordKey))
        as [|p ps] eqn:Hp; simpl.
      all: repeat split; intros; destruct_and?; destruct_or?;
        repeat match goal with H : ∃ _, _ |- _ => destruct H as (? & ? & ? & ? & ?) end;
        simplify_eq/=; try done; try congruence.
      exists secret. by rewrite Hu, Hp.
    + repeat split; intros;
        repeat match goal with H : ∃ _, _ |- _ => destruct H as (? & ? & ? & ? & ?) end;
        simplify_eq/=; done.
  - repeat split; intros;
      repeat match goal with H : ∃ _, _ |- _ => destruct H as (? & ? & ? & ? & ?) end;
      simplify_eq/=; done.
Qed.

Lemma validateSecret_condition_witness :
  Condition.Status
    (Run.secretValidCondition Sample.ext
       (Sample.controller [Sample.upstream] Sample.secret) Sample.upstream)
  = ConditionTrue
  ∧ Condition.Reason
      (Run.secretValidCondition Sample.ext
         (Sample.noSecretController [Sample.upstream]) Sample.upstream)
    = reasonNotFound
  ∧ Condition.Reason
      (Run.secretValidCondition Sample.ext
         (Sample.controller [Sample.upstream] Sample.opaqueSecret) Sample.upstream)
    = reasonWrongType
  ∧ Condition.Reason
      (Run.secretValidCondition Sample.ext
         (Sample.controller [Sample.upstream] Sample.noPasswordSecret) Sample.upstream)
    = reasonMissingKeys.
Proof.
  split; [|split; [|split]].
  - apply (validateSecret_condition Sample.ext
             (Sample.controller [Sample.upstream] Sample.secret) Sample.upstream).
    exists Sample.secret. by vm_compute.
  - apply (validateSecret_condition Sample.ext
             (Sample.noSecretController [Sample.upstream]) Sample.upstream).
    reflexivity.
  - apply (validateSecret_condition Sample.ext
             (Sample.controller [Sample.upstream] Sample.opaqueSecret) Sample.upstream
           ) with Sample.opaqueSecret; by vm_compute.
  - apply (validateSecret_condition Sample.ext
             (Sample.controller [Sample.upstream] Sample.noPasswordSecret)
             Sample.upstream) with Sample.noPasswordSecret;
      [reflexivity | reflexivity | right; reflexivity].
Defined.


(** C5 as stated fails: a basic-auth Secret without a password is rejected
    with [reasonMissingKeys], which is not the WrongType reason. *)
Lemma validateSecret_condition_counterexample :
  Run.bindSecret (Sample.controller [Sample.upstream] Sample.noPasswordSecret)
    Sample.upstream = Some Sample.noPasswordSecret
  ∧ Secret.Type_ Sample.noPasswordSecret = SecretTypeBasicAuth
  ∧ Run.passwordOf Sample.noPasswordSecret = EmptyString
  ∧ Condition.Status
      (Run.secretValidCondition Sample.ext
         (Sample.controller [Sample.upstream] Sample.noPasswordSecret) Sample.upstream)
    = ConditionFalse
  ∧ Condition.Reason
      (Run.secretValidCondition Sample.ext
         (Sample.controller [Sample.upstream] Sample.noPasswordSecret) Sample.upstream)
    = reasonMissingKeys
  ∧ Condition.Reason
      (Run.secretValidCondition Sample.ext
         (Sample.controller [Sample.upstream] Sample.noPasswordSecret) Sample.upstream)
    ≠ reasonWrongType.
Proof. by vm_compute. Qed.

(** C6.  [validateTLSConfig] answers True with the message no TLS
    configuration provided when [spec.tls] is absent, and True with the
    message loaded TLS configuration when the CA data is absent or empty,
    the configuration untouched in both cases.  Otherwise it decodes the
    CA data from base64 and asks for at least one PEM certificate: on
    success the decoded bundle becomes the CA bundle of the configuration
    and the answer is True, loaded TLS configuration; data that is not
    base64 and a bundle without a certificate give False with reason
    InvalidTLSConfig and leave the configuration untouched. *)
Theorem validateTLSConfig_cases (ext : Externals)
    (upstream : LDAPIdentityProvider.t) (config : ProviderConfig.t) :
  let tls := LDAPIdentityProviderSpec.TLS (LDAPIdentityProvider.Spec upstream) in
  let result := validateTLSConfig ext upstream config in
  (tls = None →
     result = (Condition.mk typeTLSConfigurationValid ConditionTrue 0 0 reasonSuccess
                 "no TLS configuration provided", config))
  ∧ (∀ tlsSpec, tls = Some tlsSpec →
       LDAPIdentityProviderSpec.CertificateAuthorityData tlsSpec = EmptyString →
       result = (Condition.mk typeTLSConfigurationValid ConditionTrue 0 0 reasonSuccess
                   "loaded TLS configuration", config))
  ∧ (∀ tlsSpec bundle, tls = Some tlsSpec →
       LDAPIdentityProviderSpec.CertificateAuthorityData tlsSpec ≠ EmptyString →
       base64_DecodeString ext (LDAPIdentityProviderSpec.CertificateAuthorityData tlsSpec)
         = inl bundle →
       x509_AppendCertsFromPEM ext bundle = true →
       result = (Condition.mk typeTLSConfigurationValid ConditionTrue 0 0 reasonSuccess
                   "loaded TLS configuration", withCABundle config bundle)
       ∧ ProviderConfig.CABundle result.2 = bundle)
  ∧ (∀ tlsSpec err, tls = Some tlsSpec →
       LDAPIdentityProviderSpec.CertificateAuthorityData tlsSpec ≠ EmptyString →
       base64_DecodeString ext (LDAPIdentityProviderSpec.CertificateAuthorityData tlsSpec)
         = inr err →
       Condition.Type_ result.1 = typeTLSConfigurationValid
       ∧ Condition.Status result.1 = ConditionFalse
       ∧ Condition.Reason result.1 = reasonInvalidTLSConfig
       ∧ result.2 = config)
  ∧ (∀ tlsSpec bundle, tls = Some tlsSpec →
       LDAPIdentityProviderSpec.CertificateAuthorityData tlsSpec ≠ EmptyString →
       base64_DecodeString ext (LDAPIdentityProviderSpec.CertificateAuthorityData tlsSpec)
         = inl bundle →
       x509_AppendCertsFromPEM ext bundle = false →
       Condition.Type_ result.1 = typeTLSConfigurationValid
       ∧ Condition.Status result.1 = ConditionFalse
       ∧ Condition.Reason result.1 = reasonInvalidTLSConfig
       ∧ result.2 = config).
Proof.
  intros tls result. subst tls result. unfold validateTLSConfig.
  destruct (LDAPIdentityProviderSpec.TLS _) as [[[|ch data]]|]; simpl.
  - repeat split; intros; simplify_eq/=; done.
  - destruct (base64_DecodeString ext (String ch data)) as [bundle|err] eqn:Hdec;
      [destruct (x509_AppendCertsFromPEM ext bundle) eqn:Hpem|]; simpl.
    all: repeat split; intros; simplify_eq/=; try done; try congruence.
    assert (bundle0 = bundle) as -> by congruence. done.
  - by repeat split.
Qed.

Lemma validateTLSConfig_cases_witness :
  validateTLSConfig Sample.ext Sample.upstream Sample.config
  = (Condition.mk typeTLSConfigurationValid ConditionTrue 0 0 reasonSuccess
       "no TLS configuration provided", Sample.config)
  ∧ validateTLSConfig Sample.ext (Sample.upstreamTLS EmptyString) Sample.config
    = (Condition.mk typeTLSConfigurationValid ConditionTrue 0 0 reasonSuccess
         "loaded TLS configuration", Sample.config)
  ∧ ProviderConfig.CABundle
      (validateTLSConfig Sample.ext (Sample.upstreamTLS "PEM") Sample.config).2 = "PEM"
  ∧ Condition.Reason
      (validateTLSConfig Sample.extBadBase64 (Sample.upstreamTLS "PEM") Sample.config).1
    = reasonInvalidTLSConfig
  ∧ Condition.Reason
      (validateTLSConfig Sample.extNoCertificates (Sample.upstreamTLS "PEM")
         Sample.config).1
    = reasonInvalidTLSConfig.
Proof.
  split; [|split; [|split; [|split]]].
  - destruct (validateTLSConfig_cases Sample.ext Sample.upstream Sample.config)
      as (Hnone & _).
    by apply Hnone.
  - destruct (validateTLSConfig_cases Sample.ext (Sample.upstreamTLS EmptyString)
                Sample.config) as (_ & Hempty & _).
    by apply (Hempty (LDAPIdentityProviderSpec.mkTLS EmptyString)).
  - destruct (validateTLSConfig_cases Sample.ext (Sample.upstreamTLS "PEM")
                Sample.config) as (_ & _ & Hbundle & _).
    by apply (Hbundle (LDAPIdentityProviderSpec.mkTLS "PEM") "PEM").
  - destruct (validateTLSConfig_cases Sample.extBadBase64 (Sample.upstreamTLS "PEM")
                Sample.config) as (_ & _ & _ & Hdecode & _).
    by apply (Hdecode (LDAPIdentityProviderSpec.mkTLS "PEM")
                (errorString "illegal base64 data at input byte 0")).
  - destruct (validateTLSConfig_cases Sample.extNoCertificates (Sample.upstreamTLS "PEM")
                Sample.config) as (_ & _ & _ & _ & Hpem).
    by apply (Hpem (LDAPIdentityProviderSpec.mkTLS "PEM") "PEM").
Defined.


(** C7 (as amended).  In a dry-run validation the condition written when
    the user is not found and the condition written when the search fails
    with an error carry the same type, the same status False and the same
    reason, AuthenticationDryRunError; they differ by their message only,
    which ends in user not found in the first case and in the text of the
    error in the second. *)
Theorem dry_run_failures_share_reason (ext : Externals)
    (upstream : LDAPIdentityProvider.t) (config : ProviderConfig.t)
    (currentSecretVersion : string) (w : World) :
  let username :=
    LDAPIdentityProviderSpec.DryRunAuthenticationUsername
      (LDAPIdentityProvider.Spec upstream) in
  let result := ldap_DryRunAuthenticateUser ext (New config) username in
  username ≠ EmptyString →
  hasPreviousSuccessfulConditionForCurrentSpecGenerationAndSecretVersion
    upstream currentSecretVersion = false →
  (∀ err, dryRunErr result = Some err →
     (validateFinishedConfig ext upstream config currentSecretVersion w).1
     = Some (Condition.mk typeLDAPConnectionValid ConditionFalse 0 0
               reasonAuthenticationDryRunError
               ("failed authentication dry run for end user " +:+ quoted username
                +:+ ": " +:+ Error err)))
  ∧ (dryRunErr result = None → authenticated result = false →
     (validateFinishedConfig ext upstream config currentSecretVersion w).1
     = Some (Condition.mk typeLDAPConnectionValid ConditionFalse 0 0
               reasonAuthenticationDryRunError
               ("failed authentication dry run for end user " +:+ quoted username
                +:+ ": user not found"))).
Proof.
  intros username result Hname Hprev.
  unfold validateFinishedConfig, dryRunAuthentication. rewrite Hprev.
  fold username. fold result.
  destruct username as [|ch name]; [done|]. run_M.
  split.
  - by intros err ->.
  - by intros -> ->.
Qed.

Lemma dry_run_failures_share_reason_witness :
  (validateFinishedConfig Sample.extDown Sample.upstreamDryRun Sample.config "42"
     Run.emptyWorld).1
  = Some (Condition.mk typeLDAPConnectionValid ConditionFalse 0 0
            reasonAuthenticationDryRunError
            ("failed authentication dry run for end user " +:+ quoted "pinny"
             +:+ ": dial timeout"))
  ∧ (validateFinishedConfig Sample.extNotFound Sample.upstreamDryRun Sample.config "42"
       Run.emptyWorld).1
    = Some (Condition.mk typeLDAPConnectionValid ConditionFalse 0 0
              reasonAuthenticationDryRunError
              ("failed authentication dry run for end user " +:+ quoted "pinny"
               +:+ ": user not found")).
Proof.
  split.
  - destruct (dry_run_failures_share_reason Sample.extDown Sample.upstreamDryRun
                Sample.config "42" Run.emptyWorld) as [Herr _];
      [by vm_compute | reflexivity |].
    apply (Herr (errorString "dial timeout")). reflexivity.
  - destruct (dry_run_failures_share_reason Sample.extNotFound Sample.upstreamDryRun
                Sample.config "42" Run.emptyWorld) as [_ Hnotfound];
      [by vm_compute | reflexivity |].
    apply Hnotfound; reflexivity.
Defined.

(** C7 as stated fails: for one provider with a dry-run user name, the
    condition of a server that does not know the user and the condition of
    a server that cannot be reached are both False and have the same
    reason. *)
Lemma dry_run_reasons_counterexample :
  ∃ notFound unreachable,
    (validateFinishedConfig Sample.extNotFound Sample.upstreamDryRun Sample.config "42"
       Run.emptyWorld).1 = Some notFound
    ∧ (validateFinishedConfig Sample.extDown Sample.upstreamDryRun Sample.config "42"
         Run.emptyWorld).1 = Some unreachable
    ∧ Condition.Status notFound = ConditionFalse
    ∧ Condition.Status unreachable = ConditionFalse
    ∧ Condition.Reason notFound = Condition.Reason unreachable.
Proof. do 2 eexists. by vm_compute. Qed.

(** C8.  When BindSecretValid or TLSConfigurationValid is not True, the
    sync computes no LDAPConnectionValid condition for the provider: the
    status update gets the two conditions only and no LDAP server is
    called.  The provider yields no record, and a [Sync] over a list that
    holds it publishes the records of the others and asks for a requeue. *)
Theorem invalid_config_not_connected (ext : Externals) (c : ldapWatcherController)
    (upstream : LDAPIdentityProvider.t) (w : World) :
  Condition.Status (Run.secretValidCondition ext c upstream) ≠ ConditionTrue
  ∨ Condition.Status (Run.tlsValidCondition ext c upstream) ≠ ConditionTrue →
  (validateUpstream ext c upstream w).2
  = (updateStatus ext upstream
       [Run.secretValidCondition ext c upstream; Run.tlsValidCondition ext c upstream] w).2
  ∧ Condition.Type_ (Run.secretValidCondition ext c upstream) ≠ typeLDAPConnectionValid
  ∧ Condition.Type_ (Run.tlsValidCondition ext c upstream) ≠ typeLDAPConnectionValid
  ∧ ldapCalls (validateUpstream ext c upstream w).2 = ldapCalls w
  ∧ (validateUpstream ext c upstream w).1 = None
  ∧ (∀ before after,
       ldapIdentityProviderInformer c = inr (before ++ upstream :: after) →
       (Sync ext c w).1 = Some ErrSyntheticRequeue
       ∧ idpCache (Sync ext c w).2
         = Run.validatedSet ext c before ++ Run.validatedSet ext c after).
Proof.
  intros Hnot.
  destruct (ValidatorFacts.not_both_valid ext c upstream Hnot) as (Hboth & Hconds & Herr).
  destruct (ValidatorFacts.validateSecret_status ext c upstream
              (newProviderConfig c upstream)) as [Hst _].
  destruct (ValidatorFacts.validateTLSConfig_status ext upstream
              (Run.configAfterSecret ext c upstream)) as [Htt _].
  fold (Run.secretValidCondition ext c upstream) in Hst.
  fold (Run.tlsValidCondition ext c upstream) in Htt.
  assert ((validateUpstream ext c upstream w).2
          = (updateStatus ext upstream
               [Run.secretValidCondition ext c upstream;
                Run.tlsValidCondition ext c upstream] w).2) as Hworld.
  { rewrite SyncFacts.validateUpstream_run. cbn [fst snd]. by rewrite Hboth, Hconds. }
  split; [done|].
  split; [by rewrite Hst|]. split; [by rewrite Htt|].
  split; [rewrite Hworld; apply StatusFacts.updateStatus_frame|].
  split; [by rewrite SyncFacts.validateUpstream_fst, Herr|].
  intros before after Hlist.
  destruct (SyncFacts.Sync_run ext c _ w Hlist) as [-> Hcache].
  split.
  - rewrite existsb_app. simpl. rewrite Herr. by rewrite orb_true_r.
  - unfold idpCache. rewrite Hcache, last_snoc. simpl.
    unfold Run.validatedSet. rewrite filter_app, filter_cons, decide_False, fmap_app;
      [done|by rewrite Herr].
Qed.

Lemma invalid_config_not_connected_witness :
  ldapCalls (validateUpstream Sample.ext (Sample.noSecretController [Sample.upstream])
               Sample.upstream Run.emptyWorld).2 = []
  ∧ (validateUpstream Sample.ext (Sample.noSecretController [Sample.upstream])
       Sample.upstream Run.emptyWorld).1 = None
  ∧ (Sync Sample.ext (Sample.noSecretController [Sample.upstream]) Run.emptyWorld).1
    = Some ErrSyntheticRequeue
  ∧ idpCache (Sync Sample.ext (Sample.noSecretController [Sample.upstream])
                Run.emptyWorld).2 = [].
Proof.
  destruct (invalid_config_not_connected Sample.ext
              (Sample.noSecretController [Sample.upstream]) Sample.upstream
              Run.emptyWorld) as (_ & _ & _ & Hcalls & Hnone & Hsync).
  - left. by vm_compute.
  - destruct (Hsync [] [] eq_refl) as [Hrequeue Hcache]. by repeat split.
Defined.

(** C9.  [updateStatus] gives the object it builds the phase Ready exactly
    when none of the computed conditions has status False, and the phase
    Error otherwise; the conditions of that object are the stored ones
    with the computed ones merged in: each computed condition is recorded
    with the generation of the object, and stored conditions of other
    types stay.  It sends the object with one [UpdateStatus] call exactly
    when its status differs from the status of the stored object, which is
    the case as soon as a computed condition is not recorded yet, and
    leaves the world as it was when nothing changed, which is the case
    when everything computed is recorded and the phase is the stored
    one. *)
Theorem updateStatus_phase_and_write (ext : Externals)
    (upstream : LDAPIdentityProvider.t) (conditions : list Condition.t) (w : World) :
  let updated := (updatedUpstream ext upstream conditions).2 in
  let phase := LDAPIdentityProviderStatus.Phase (LDAPIdentityProvider.Status updated) in
  (phase = LDAPPhaseReady ↔ ¬ Run.hasFalse conditions)
  ∧ (phase = LDAPPhaseError ↔ Run.hasFalse conditions)
  ∧ updated = withStatus upstream (LDAPIdentityProvider.Status updated)
  ∧ (LDAPIdentityProvider.Status updated ≠ LDAPIdentityProvider.Status upstream →
     (updateStatus ext upstream conditions w).2
     = mkWorld (ldapCalls w) (statusUpdates w ++ [updated]) (cacheSnapshots w))
  ∧ (LDAPIdentityProvider.Status updated = LDAPIdentityProvider.Status upstream →
     (updateStatus ext upstream conditions w).2 = w)
  ∧ ((updateStatus ext upstream conditions w).1 = true ↔ Run.hasFalse conditions)
  ∧ LDAPIdentityProviderStatus.Conditions (LDAPIdentityProvider.Status updated)
    = (mergeConditions (metav1_Now ext) conditions
         (LDAPIdentityProvider.Generation upstream)
         (LDAPIdentityProviderStatus.Conditions (LDAPIdentityProvider.Status upstream))).2
  ∧ (NoDup (Condition.Type_ <$> conditions) →
     ∀ cond, cond ∈ conditions →
       ∃ merged,
         merged ∈ LDAPIdentityProviderStatus.Conditions (LDAPIdentityProvider.Status updated)
         ∧ Check.recorded (LDAPIdentityProvider.Generation upstream) merged cond)
  ∧ (∀ old,
       old ∈ LDAPIdentityProviderStatus.Conditions (LDAPIdentityProvider.Status upstream) →
       (∀ cond, cond ∈ conditions → Condition.Type_ cond ≠ Condition.Type_ old) →
       old ∈ LDAPIdentityProviderStatus.Conditions (LDAPIdentityProvider.Status updated))
  ∧ (NoDup (Condition.Type_ <$> conditions) →
     (∃ cond, cond ∈ conditions
        ∧ ¬ ∃ old,
              old ∈ LDAPIdentityProviderStatus.Conditions
                      (LDAPIdentityProvider.Status upstream)
              ∧ Check.recorded (LDAPIdentityProvider.Generation upstream) old cond) →
     (updateStatus ext upstream conditions w).2
     = mkWorld (ldapCalls w) (statusUpdates w ++ [updated]) (cacheSnapshots w))
  ∧ (LDAPIdentityProviderStatus.Phase (LDAPIdentityProvider.Status upstream) ≠ phase →
     (updateStatus ext upstream conditions w).2
     = mkWorld (ldapCalls w) (statusUpdates w ++ [updated]) (cacheSnapshots w))
  ∧ (NoDup (Condition.Type_
              <$> LDAPIdentityProviderStatus.Conditions
                    (LDAPIdentityProvider.Status upstream)) →
     (∀ cond, cond ∈ conditions →
        ∃ old,
          old ∈ LDAPIdentityProviderStatus.Conditions (LDAPIdentityProvider.Status upstream)
          ∧ Check.recorded (LDAPIdentityProvider.Generation upstream) old cond) →
     LDAPIdentityProviderStatus.Phase (LDAPIdentityProvider.Status upstream) = phase →
     (updateStatus ext upstream conditions w).2 = w).
Proof.
  intros updated phase.
  assert (LDAPIdentityProviderStatus.Conditions (LDAPIdentityProvider.Status updated)
          = (mergeConditions (metav1_Now ext) conditions
               (LDAPIdentityProvider.Generation upstream)
               (LDAPIdentityProviderStatus.Conditions
                  (LDAPIdentityProvider.Status upstream))).2) as Hmerged by done.
  rewrite StatusFacts.updateStatus_run, StatusFacts.updatedUpstream_fst.
  fold updated.
  rewrite <- StatusFacts.existsb_False.
  assert (phase = if existsb (λ cond, bool_decide (Condition.Status cond = ConditionFalse))
                       conditions
                  then LDAPPhaseError else LDAPPhaseReady) as Hphase by done.
  assert (updated = withStatus upstream (LDAPIdentityProvider.Status updated)) as Hupd
    by done.
  assert (phase = LDAPIdentityProviderStatus.Phase (LDAPIdentityProvider.Status updated))
    as Hphase' by done.
  clearbody phase updated. cbn [fst snd].
  assert (LDAPIdentityProvider.Status updated ≠ LDAPIdentityProvider.Status upstream →
          (if bool_decide (upstream = updated) then w
           else mkWorld (ldapCalls w) (statusUpdates w ++ [updated]) (cacheSnapshots w))
          = mkWorld (ldapCalls w) (statusUpdates w ++ [updated]) (cacheSnapshots w))
    as Hwrite.
  { intros Hne. rewrite bool_decide_eq_false_2; [done|].
    intros Heq. apply Hne. by rewrite <- Heq. }
  assert (LDAPIdentityProvider.Status updated = LDAPIdentityProvider.Status upstream →
          (if bool_decide (upstream = updated) then w
           else mkWorld (ldapCalls w) (statusUpdates w ++ [updated]) (cacheSnapshots w))
          = w) as Hsame.
  { intros Heq. rewrite bool_decide_eq_true_2; [done|].
    rewrite Hupd, Heq. by destruct upstream. }
  split; [rewrite Hphase; by destruct (existsb _ _)|].
  split; [rewrite Hphase; by destruct (existsb _ _)|].
  split; [done|]. split; [done|]. split; [done|].
  split; [done|]. split; [done|].
  split; [|split; [|split; [|split]]].
  - intros Hnodup cond Hin. rewrite Hmerged.
    by apply MergeFacts.mergeConditions_records.
  - intros old Hin Hother. rewrite Hmerged.
    by apply MergeFacts.mergeConditions_keeps.
  - intros Hnodup (cond & Hin & Hnot). apply Hwrite. intros Heq.
    apply Hnot.
    destruct (MergeFacts.mergeConditions_records (metav1_Now ext) conditions
                (LDAPIdentityProvider.Generation upstream)
                (LDAPIdentityProviderStatus.Conditions
                   (LDAPIdentityProvider.Status upstream)) cond Hnodup Hin)
      as (merged & Hin' & Hrec).
    exists merged. split; [|done]. by rewrite <- Hmerged, Heq in Hin'.
  - intros Hne. apply Hwrite. intros Heq. apply Hne. by rewrite Hphase', Heq.
  - intros Hnodup Hall Hsamephase. apply Hsame.
    assert (LDAPIdentityProviderStatus.Conditions (LDAPIdentityProvider.Status updated)
            = LDAPIdentityProviderStatus.Conditions (LDAPIdentityProvider.Status upstream))
      as Hconds.
    { rewrite Hmerged. by apply MergeFacts.mergeConditions_recorded. }
    rewrite Hphase' in Hsamephase.
    destruct (LDAPIdentityProvider.Status updated) as [phase1 conditions1],
             (LDAPIdentityProvider.Status upstream) as [phase0 conditions0].
    simpl in Hconds, Hsamephase. congruence.
Qed.

Lemma updateStatus_phase_and_write_witness :
  statusUpdates (updateStatus Sample.ext Sample.upstream Sample.allValid Run.emptyWorld).2
  = [Sample.upstreamSettled]
  ∧ LDAPIdentityProviderStatus.Phase (LDAPIdentityProvider.Status Sample.upstreamSettled)
    = LDAPPhaseReady
  ∧ (updateStatus Sample.ext Sample.upstreamSettled Sample.allValid Run.emptyWorld).2
    = Run.emptyWorld
  ∧ (∀ cond, cond ∈ Sample.allValid →
       ∃ merged,
         merged ∈ LDAPIdentityProviderStatus.Conditions
                    (LDAPIdentityProvider.Status Sample.upstreamSettled)
         ∧ Check.recorded 3 merged cond).
Proof.
  assert (NoDup (Condition.Type_ <$> Sample.allValid)) as Hnodup.
  { apply (bool_decide_unpack _). by vm_compute. }
  destruct (updateStatus_phase_and_write Sample.ext Sample.upstream Sample.allValid
              Run.emptyWorld)
    as (Hready & _ & _ & _ & _ & _ & _ & Hrecorded & _ & Hwrite & _ & _).
  destruct (updateStatus_phase_and_write Sample.ext Sample.upstreamSettled Sample.allValid
              Run.emptyWorld) as (_ & _ & _ & _ & _ & _ & _ & _ & _ & _ & _ & Hsame).
  split; [|split; [|split]].
  - rewrite Hwrite; [reflexivity|exact Hnodup|].
    exists (Run.secretValidCondition Sample.ext
              (Sample.controller [Sample.upstream] Sample.secret) Sample.upstream).
    split; [by left|]. intros (old & Hin & _). by apply elem_of_nil in Hin.
  - apply Hready. intros (cond & Hin & Hfalse). revert Hin Hfalse. vm_compute.
    intros Hin. repeat (apply elem_of_cons in Hin as [->|Hin]; [done|]).
    by apply elem_of_nil in Hin.
  - apply Hsame.
    + apply (bool_decide_unpack _). by vm_compute.
    + apply (Hrecorded Hnodup).
    + by vm_compute.
  - apply (Hrecorded Hnodup).
Defined.


(** C10.  When listing the providers fails, [Sync] returns that error,
    wrapped, and touches nothing: no LDAP call, no status update, no
    snapshot for the cache, which keeps the set published before. *)
Theorem Sync_list_error (ext : Externals) (c : ldapWatcherController)
    (err : error) (w : World) :
  ldapIdentityProviderInformer c = inl err →
  Sync ext c w = (Some (wrapError "failed to list LDAPIdentityProviders" err), w)
  ∧ idpCache (Sync ext c w).2 = idpCache w.
Proof. intros Hlist. unfold Sync. by rewrite Hlist. Qed.

Lemma Sync_list_error_witness :
  Sync Sample.ext Sample.brokenController Sample.laterWorld
  = (Some (wrapError "failed to list LDAPIdentityProviders"
             (errorString "informer cache is not synced")),
     Sample.laterWorld)
  ∧ idpCache (Sync Sample.ext Sample.brokenController Sample.laterWorld).2
    = idpCache Sample.laterWorld.
Proof.
  apply (Sync_list_error Sample.ext Sample.brokenController
           (errorString "informer cache is not synced") Sample.laterWorld).
  reflexivity.
Defined.

(** * Further properties of the watcher *)

Module CheckFacts.

(** A validation that is not skipped makes one call and answers True or
    False as the server does. *)
Lemma check_run (ext : Externals) (upstream : LDAPIdentityProvider.t)
    (config : ProviderConfig.t) (version : string) (w : World) :
  hasPreviousSuccessfulConditionForCurrentSpecGenerationAndSecretVersion upstream version
    = false →
  ∃ cond,
    validateFinishedConfig ext upstream config version w
    = (Some cond, Check.withLDAPCall w (Check.connectionCall upstream config))
    ∧ Condition.Type_ cond = typeLDAPConnectionValid
    ∧ Condition.Status cond
      = if Check.serverAccepts ext upstream config then ConditionTrue else ConditionFalse.
Proof.
  intros Hprev.
  unfold validateFinishedConfig, Check.connectionCall, Check.serverAccepts,
    Check.dryRunUsername, dryRunAuthentication, testConnection.
  rewrite Hprev.
  destruct (is_empty _); run_M.
  - destruct (ldap_TestConnection ext (New config)); by eexists.
  - destruct (dryRunErr _); [by eexists|].
    destruct (authenticated _); by eexists.
Qed.

(** The message of a success can be read back. *)
Lemma success_parses (ext : Externals) (upstream : LDAPIdentityProvider.t)
    (config : ProviderConfig.t) (version : string) (w : World) (cond : Condition.t) :
  (validateFinishedConfig ext upstream config version w).1 = Some cond →
  Condition.Status cond = ConditionTrue →
  Check.trailerSafe (Run.secretName upstream) version →
  Check.printable ext upstream config →
  validatedSecretVersion (Condition.Message cond) = Some version.
Proof.
  intros Hcond Hstatus (Hname & Hnamenl & Hver & Hvernl & Hverdq) Hprint.
  revert Hcond Hprint.
  unfold validateFinishedConfig, Check.printable, Check.dryRunUsername,
    dryRunAuthentication, testConnection.
  destruct (hasPreviousSuccessfulConditionForCurrentSpecGenerationAndSecretVersion _ _);
    [done|].
  destruct (is_empty _); run_M.
  - destruct (ldap_TestConnection ext (New config)); simpl;
      intros [= <-] [Hhost Huser]; [done|]. simpl.
    rewrite MessageFacts.trailer_eq, <- !GoStringFacts.app_assoc.
    apply MessageFacts.validatedSecretVersion_trailer; try done.
    repeat apply MessageFacts.no_newline_app;
      done || by apply MessageFacts.no_newline_quoted.
  - destruct (dryRunErr _); simpl; [by intros [= <-]|].
    destruct (authenticated _); simpl; intros [= <-] (Huser & Hrname & Hruid); [|done].
    simpl.
    rewrite MessageFacts.trailer_eq, <- !GoStringFacts.app_assoc.
    apply MessageFacts.validatedSecretVersion_trailer; try done.
    repeat apply MessageFacts.no_newline_app;
      done || by apply MessageFacts.no_newline_quoted.
Qed.

(** What the parser reads is never empty and holds no line feed. *)
Lemma validatedSecretVersion_inv (message version : string) :
  validatedSecretVersion message = Some version →
  ∃ pre secretName post,
    message = pre +:+ Trailer.trailer secretName version +:+ post
    ∧ secretName ≠ EmptyString ∧ Trailer.no_newline secretName
    ∧ version ≠ EmptyString ∧ Trailer.no_newline version.
Proof.
  unfold validatedSecretVersion, FindStringSubmatch.
  destruct (find secretVersionParser message) as [[m groups]|] eqn:Hfind; [|done].
  apply TrailerFacts.find_sound in Hfind
    as (pre & secretName & version' & post & -> & _ & -> & H).
  intros [= <-]. by exists pre, secretName, post.
Qed.

End CheckFacts.

(** X1.  Whatever [secretVersionParser] reads out of a message is the
    version written in a trailer that the message holds: the message is
    some text, a trailer with a non-empty Secret name and that version,
    and some text; the version read is never empty and holds no line
    feed. *)
Theorem parsed_version_is_in_a_trailer (message version : string) :
  validatedSecretVersion message = Some version →
  ∃ pre secretName post,
    message = pre +:+ Trailer.trailer secretName version +:+ post
    ∧ secretName ≠ EmptyString ∧ Trailer.no_newline secretName
    ∧ version ≠ EmptyString ∧ Trailer.no_newline version.
Proof. apply CheckFacts.validatedSecretVersion_inv. Qed.

Lemma parsed_version_is_in_a_trailer_witness :
  ∃ pre secretName post,
    Condition.Message (Sample.connected "42")
    = pre +:+ Trailer.trailer secretName "42" +:+ post
    ∧ secretName ≠ EmptyString ∧ Trailer.no_newline secretName
    ∧ "42" ≠ EmptyString ∧ Trailer.no_newline "42".
Proof.
  apply (parsed_version_is_in_a_trailer (Condition.Message (Sample.connected "42")) "42").
  by vm_compute.
Defined.

(** X2.  A resource version that is empty or holds a line feed is never
    recognised in a stored condition: whatever the status of the object,
    [validateFinishedConfig] does not skip, makes its one LDAP call and
    returns a condition. *)
Theorem unreadable_version_never_skips (ext : Externals)
    (upstream : LDAPIdentityProvider.t) (config : ProviderConfig.t)
    (version : string) (w : World) :
  version = EmptyString ∨ ¬ Trailer.no_newline version →
  ∃ cond,
    validateFinishedConfig ext upstream config version w
    = (Some cond, Check.withLDAPCall w (Check.connectionCall upstream config)).
Proof.
  intros Hbad.
  destruct (hasPreviousSuccessfulConditionForCurrentSpecGenerationAndSecretVersion
              upstream version) eqn:Hprev.
  - apply SkipFacts.hasPrevious_iff in Hprev as (stored & _ & _ & _ & _ & Hparse).
    apply CheckFacts.validatedSecretVersion_inv in Hparse
      as (pre & secretName & post & _ & _ & _ & Hne & Hnl).
    by destruct Hbad.
  - destruct (CheckFacts.check_run ext upstream config version w Hprev)
      as (cond & Hrun & _).
    by exists cond.
Qed.

Lemma unreadable_version_never_skips_witness :
  ∃ cond,
    validateFinishedConfig Sample.ext Sample.upstreamValidated Sample.config
      Sample.twoLines Run.emptyWorld
    = (Some cond,
       Check.withLDAPCall Run.emptyWorld
         (Check.connectionCall Sample.upstreamValidated Sample.config)).
Proof.
  apply (unreadable_version_never_skips Sample.ext Sample.upstreamValidated
           Sample.config Sample.twoLines Run.emptyWorld).
  right. by vm_compute.
Defined.

(** X3.  Success is remembered.  When a check returns a condition with
    status True, and that condition is later found in the status of the
    object with its type, status and message and with the generation of
    the object as observed generation, the next validation against the
    same resource version of the Secret is skipped: no condition, no LDAP
    call.  The Secret name and the version must be fit for a trailer and
    the texts printed before it free of line feeds. *)
Theorem success_is_remembered (ext ext' : Externals)
    (upstream upstream' : LDAPIdentityProvider.t) (config config' : ProviderConfig.t)
    (version : string) (w w' : World) (cond stored : Condition.t) :
  Check.trailerSafe (Run.secretName upstream) version →
  Check.printable ext upstream config →
  (validateFinishedConfig ext upstream config version w).1 = Some cond →
  Condition.Status cond = ConditionTrue →
  stored ∈ LDAPIdentityProviderStatus.Conditions (LDAPIdentityProvider.Status upstream') →
  Condition.Type_ stored = typeLDAPConnectionValid →
  Condition.Status stored = ConditionTrue →
  Condition.Message stored = Condition.Message cond →
  Condition.ObservedGeneration stored = LDAPIdentityProvider.Generation upstream' →
  validateFinishedConfig ext' upstream' config' version w' = (None, w').
Proof.
  intros Hsafe Hprint Hcond Hstatus Hin Htype Hstored Hmessage Hgeneration.
  assert (hasPreviousSuccessfulConditionForCurrentSpecGenerationAndSecretVersion
            upstream' version = true) as Hprev.
  { apply SkipFacts.hasPrevious_iff. exists stored.
    repeat split; try done.
    rewrite Hmessage. by apply (CheckFacts.success_parses ext upstream config version w). }
  unfold validateFinishedConfig. by rewrite Hprev.
Qed.

Lemma success_is_remembered_witness :
  validateFinishedConfig Sample.extDown Sample.upstreamValidated Sample.config "42"
    Sample.laterWorld
  = (None, Sample.laterWorld).
Proof.
  apply (success_is_remembered Sample.ext Sample.extDown Sample.upstream
           Sample.upstreamValidated Sample.config Sample.config "42"
           Run.emptyWorld Sample.laterWorld
           (Sample.connected "42") Sample.validatedCondition).
  - by vm_compute.
  - by vm_compute.
  - reflexivity.
  - reflexivity.
  - by left.
  - reflexivity.
  - reflexivity.
  - reflexivity.
  - reflexivity.
Defined.

(** X4.  A rotated Secret is validated again.  When every stored
    LDAPConnectionValid condition carries the message of a success
    against the old resource version, a validation against another
    version is not skipped: it makes its one LDAP call and returns a
    condition, the generation of the object unchanged or not.  The Secret
    name and the old version must be fit for a trailer (not empty, no line
    feed, no double quote in the version) and the texts printed before the
    trailer free of line feeds; nothing is asked of the new version. *)
Theorem rotated_secret_is_revalidated (ext ext' : Externals)
    (upstream upstream' : LDAPIdentityProvider.t) (config config' : ProviderConfig.t)
    (old new : string) (w w' : World) (cond : Condition.t) :
  Check.trailerSafe (Run.secretName upstream) old →
  Check.printable ext upstream config →
  (validateFinishedConfig ext upstream config old w).1 = Some cond →
  Condition.Status cond = ConditionTrue →
  (∀ stored,
     stored ∈ LDAPIdentityProviderStatus.Conditions (LDAPIdentityProvider.Status upstream') →
     Condition.Type_ stored = typeLDAPConnectionValid →
     Condition.Message stored = Condition.Message cond) →
  new ≠ old →
  ∃ cond',
    validateFinishedConfig ext' upstream' config' new w'
    = (Some cond', Check.withLDAPCall w' (Check.connectionCall upstream' config')).
Proof.
  intros Hsafe Hprint Hcond Hstatus Hstored Hnew.
  destruct (hasPreviousSuccessfulConditionForCurrentSpecGenerationAndSecretVersion
              upstream' new) eqn:Hprev.
  - apply SkipFacts.hasPrevious_iff in Hprev as (stored & Hin & Htype & _ & _ & Hparse).
    rewrite (Hstored stored Hin Htype) in Hparse.
    rewrite (CheckFacts.success_parses ext upstream config old w cond) in Hparse by done.
    by injection Hparse as ->.
  - destruct (CheckFacts.check_run ext' upstream' config' new w' Hprev)
      as (cond' & Hrun & _).
    by exists cond'.
Qed.

Lemma rotated_secret_is_revalidated_witness :
  ∃ cond',
    validateFinishedConfig Sample.ext Sample.upstreamValidated Sample.config "43"
      Run.emptyWorld
    = (Some cond',
       Check.withLDAPCall Run.emptyWorld
         (Check.connectionCall Sample.upstreamValidated Sample.config)).
Proof.
  apply (rotated_secret_is_revalidated Sample.ext Sample.ext Sample.upstream
           Sample.upstreamValidated Sample.config Sample.config "42" "43"
           Run.emptyWorld Run.emptyWorld (Sample.connected "42")).
  - by vm_compute.
  - by vm_compute.
  - reflexivity.
  - reflexivity.
  - intros stored Hin _. apply list_elem_of_singleton in Hin as ->. reflexivity.
  - done.
Defined.

Module PublishFacts.

(** A True BindSecretValid: the Secret and what it left in the
    configuration. *)
Lemma secret_valid_inv (ext : Externals) (c : ldapWatcherController)
    (upstream : LDAPIdentityProvider.t) :
  Condition.Status (Run.secretValidCondition ext c upstream) = ConditionTrue →
  ∃ secret,
    Run.bindSecret c upstream = Some secret
    ∧ Secret.Type_ secret = SecretTypeBasicAuth
    ∧ Run.usernameOf secret ≠ EmptyString
    ∧ Run.passwordOf secret ≠ EmptyString
    ∧ Run.currentSecretVersion ext c upstream = Secret.ResourceVersion secret
    ∧ Run.configAfterSecret ext c upstream
      = withBind (newProviderConfig c upstream)
          (Run.usernameOf secret) (Run.passwordOf secret).
Proof.
  unfold Run.secretValidCondition, Run.currentSecretVersion, Run.configAfterSecret,
    Run.bindSecret, Run.secretName, Run.usernameOf, Run.passwordOf,
    validateSecret, getSecret.
  destruct (secretInformer c !! _) as [secret|]; simpl; [|done].
  case_bool_decide as Htype; simpl; [|done].
  destruct (default EmptyString (Secret.Data secret !! BasicAuthUsernameKey))
    as [|u us] eqn:Hu; simpl; [done|].
  destruct (default EmptyString (Secret.Data secret !! BasicAuthPasswordKey))
    as [|p ps] eqn:Hp; simpl; [done|].
  intros _. exists secret. by rewrite Hu, Hp.
Qed.

(** A True TLSConfigurationValid on a configuration without a bundle. *)
Lemma tls_valid_inv (ext : Externals) (upstream : LDAPIdentityProvider.t)
    (config : ProviderConfig.t) :
  Condition.Status (validateTLSConfig ext upstream config).1 = ConditionTrue →
  ProviderConfig.CABundle config = EmptyString →
  (validateTLSConfig ext upstream config).2
  = withCABundle config (Check.caBundleOf ext upstream).
Proof.
  unfold validateTLSConfig, Check.caBundleOf.
  destruct (LDAPIdentityProviderSpec.TLS _) as [tlsSpec|]; simpl.
  - destruct (is_empty _); simpl.
    + intros _ Hca. destruct config. simpl in Hca. by subst.
    + destruct (base64_DecodeString _ _) as [bundle|err]; simpl; [|done].
      by destruct (x509_AppendCertsFromPEM ext bundle).
  - intros _ Hca. destruct config. simpl in Hca. by subst.
Qed.

(** A provider without an error condition passed the first two checks. *)
Lemma no_error_both_valid (ext : Externals) (c : ldapWatcherController)
    (upstream : LDAPIdentityProvider.t) :
  Run.hadErrorCondition ext c upstream = false →
  Condition.Status (Run.secretValidCondition ext c upstream) = ConditionTrue
  ∧ Condition.Status (Run.tlsValidCondition ext c upstream) = ConditionTrue.
Proof.
  intros Herr.
  destruct (decide (Condition.Status (Run.secretValidCondition ext c upstream)
                    = ConditionTrue)) as [Hs|Hs];
    [destruct (decide (Condition.Status (Run.tlsValidCondition ext c upstream)
                       = ConditionTrue)) as [Ht|Ht]|]; [done|..].
  - destruct (ValidatorFacts.not_both_valid ext c upstream) as (_ & _ & Htrue);
      [by right|congruence].
  - destruct (ValidatorFacts.not_both_valid ext c upstream) as (_ & _ & Htrue);
      [by left|congruence].
Qed.

(** The error flag of a provider that passed the first two checks. *)
Lemma hadError_both_valid (ext : Externals) (c : ldapWatcherController)
    (upstream : LDAPIdentityProvider.t) :
  Condition.Status (Run.secretValidCondition ext c upstream) = ConditionTrue →
  Condition.Status (Run.tlsValidCondition ext c upstream) = ConditionTrue →
  Run.hadErrorCondition ext c upstream
  = if hasPreviousSuccessfulConditionForCurrentSpecGenerationAndSecretVersion
         upstream (Run.currentSecretVersion ext c upstream)
    then false
    else negb (Check.serverAccepts ext upstream (Run.finishedConfig ext c upstream)).
Proof.
  intros Hs Ht.
  unfold Run.hadErrorCondition, Run.computedConditions, Run.bothValid.
  rewrite !bool_decide_eq_true_2 by done. simpl.
  destruct (hasPreviousSuccessfulConditionForCurrentSpecGenerationAndSecretVersion
              upstream (Run.currentSecretVersion ext c upstream)) eqn:Hprev.
  - unfold validateFinishedConfig. rewrite Hprev. simpl.
    rewrite Hs, Ht. done.
  - destruct (CheckFacts.check_run ext upstream (Run.finishedConfig ext c upstream)
                (Run.currentSecretVersion ext c upstream) Run.emptyWorld Hprev)
      as (cond & -> & _ & Hstatus).
    simpl. rewrite Hs, Ht, Hstatus. simpl.
    by destruct (Check.serverAccepts _ _ _).
Qed.

End PublishFacts.

(** X5.  A provider is published exactly when it passes everything:
    [validateUpstream] returns a record, built from the configuration as
    the validators left it, exactly when BindSecretValid and
    TLSConfigurationValid are True and the connection either was validated
    before, for this generation and this version of the Secret, or is
    accepted by the server now; otherwise it returns nothing. *)
Theorem published_iff_validated (ext : Externals) (c : ldapWatcherController)
    (upstream : LDAPIdentityProvider.t) (w : World) :
  ((validateUpstream ext c upstream w).1 = Some (New (Run.finishedConfig ext c upstream))
   ↔ Condition.Status (Run.secretValidCondition ext c upstream) = ConditionTrue
     ∧ Condition.Status (Run.tlsValidCondition ext c upstream) = ConditionTrue
     ∧ ((∃ cond, Run.previousSuccess upstream (Run.currentSecretVersion ext c upstream) cond)
        ∨ Check.serverAccepts ext upstream (Run.finishedConfig ext c upstream) = true))
  ∧ ((validateUpstream ext c upstream w).1 = None
     ∨ (validateUpstream ext c upstream w).1
       = Some (New (Run.finishedConfig ext c upstream))).
Proof.
  rewrite SyncFacts.validateUpstream_fst.
  split; [|by destruct (Run.hadErrorCondition ext c upstream); auto].
  rewrite <- SkipFacts.hasPrevious_iff.
  destruct (Run.hadErrorCondition ext c upstream) eqn:Herr.
  - split; [done|]. intros (Hs & Ht & Hok).
    rewrite PublishFacts.hadError_both_valid in Herr by done.
    destruct (hasPreviousSuccessfulConditionForCurrentSpecGenerationAndSecretVersion _ _);
      [done|].
    destruct Hok as [?|Hok]; [done|]. by rewrite Hok in Herr.
  - split; [intros _|done].
    destruct (PublishFacts.no_error_both_valid ext c upstream Herr) as [Hs Ht].
    rewrite PublishFacts.hadError_both_valid in Herr by done.
    repeat split; try done.
    destruct (hasPreviousSuccessfulConditionForCurrentSpecGenerationAndSecretVersion _ _);
      [by left|right].
    by destruct (Check.serverAccepts _ _ _).
Qed.

(** X6.  What the cache holds after a sync.  Every record published by
    [Sync] belongs to a listed provider whose bind Secret exists, has type
    basic-auth and non-empty username and password: the record has the
    name of the provider, the host and the user search of its spec, the
    username and password of the Secret, the decoded CA bundle of the spec
    (empty without CA data) and the dialer of the controller. *)
Theorem published_record_content (ext : Externals) (c : ldapWatcherController)
    (ups : list LDAPIdentityProvider.t) (w : World) (p : Provider) :
  ldapIdentityProviderInformer c = inr ups →
  p ∈ idpCache (Sync ext c w).2 →
  ∃ upstream secret,
    upstream ∈ ups
    ∧ Run.bindSecret c upstream = Some secret
    ∧ Secret.Type_ secret = SecretTypeBasicAuth
    ∧ Run.usernameOf secret ≠ EmptyString
    ∧ Run.passwordOf secret ≠ EmptyString
    ∧ p = New (ProviderConfig.mk
                 (LDAPIdentityProvider.Name upstream)
                 (LDAPIdentityProviderSpec.Host (LDAPIdentityProvider.Spec upstream))
                 (Check.caBundleOf ext upstream)
                 (Run.usernameOf secret) (Run.passwordOf secret)
                 (LDAPIdentityProviderSpec.UserSearch_Base (LDAPIdentityProvider.Spec upstream))
                 (LDAPIdentityProviderSpec.UserSearch_Filter
                    (LDAPIdentityProvider.Spec upstream))
                 (LDAPIdentityProviderSpec.UserSearch_Attributes_Username
                    (LDAPIdentityProvider.Spec upstream))
                 (LDAPIdentityProviderSpec.UserSearch_Attributes_UID
                    (LDAPIdentityProvider.Spec upstream))
                 (ldapDialer c)).
Proof.
  intros Hlist Hin.
  destruct (SyncFacts.Sync_run ext c ups w Hlist) as [_ Hcache].
  unfold idpCache in Hin. rewrite Hcache, last_snoc in Hin. simpl in Hin.
  unfold Run.validatedSet in Hin.
  apply list_elem_of_fmap in Hin as (upstream & -> & [Herr Hups]%list_elem_of_filter).
  destruct (PublishFacts.no_error_both_valid ext c upstream Herr) as [Hs Ht].
  destruct (PublishFacts.secret_valid_inv ext c upstream Hs)
    as (secret & Hsecret & Htype & Hu & Hp & _ & Hconfig).
  exists upstream, secret. repeat split; try done.
  unfold Run.finishedConfig. unfold Run.tlsValidCondition in Ht.
  rewrite PublishFacts.tls_valid_inv by (done || by rewrite Hconfig).
  by rewrite Hconfig.
Qed.

Lemma published_record_content_witness :
  ∃ upstream secret,
    upstream ∈ [Sample.upstream]
    ∧ Run.bindSecret (Sample.controller [Sample.upstream] Sample.secret) upstream
      = Some secret
    ∧ Secret.Type_ secret = SecretTypeBasicAuth
    ∧ Run.usernameOf secret ≠ EmptyString
    ∧ Run.passwordOf secret ≠ EmptyString
    ∧ New Sample.config
      = New (ProviderConfig.mk
               (LDAPIdentityProvider.Name upstream)
               (LDAPIdentityProviderSpec.Host (LDAPIdentityProvider.Spec upstream))
               (Check.caBundleOf Sample.ext upstream)
               (Run.usernameOf secret) (Run.passwordOf secret)
               (LDAPIdentityProviderSpec.UserSearch_Base (LDAPIdentityProvider.Spec upstream))
               (LDAPIdentityProviderSpec.UserSearch_Filter
                  (LDAPIdentityProvider.Spec upstream))
               (LDAPIdentityProviderSpec.UserSearch_Attributes_Username
                  (LDAPIdentityProvider.Spec upstream))
               (LDAPIdentityProviderSpec.UserSearch_Attributes_UID
                  (LDAPIdentityProvider.Spec upstream))
               (ldapDialer (Sample.controller [Sample.upstream] Sample.secret))).
Proof.
  apply (published_record_content Sample.ext
           (Sample.controller [Sample.upstream] Sample.secret)
           [Sample.upstream] Run.emptyWorld (New Sample.config)).
  - reflexivity.
  - vm_compute. by left.
Defined.

Module EffectFacts.

Lemma world_eta (w : World) :
  w = mkWorld (ldapCalls w) (statusUpdates w) (cacheSnapshots w).
Proof. by destruct w. Qed.

Lemma updateStatus_effects (ext : Externals) (upstream : LDAPIdentityProvider.t)
    (conditions : list Condition.t) (w : World) :
  ∃ updates,
    (updateStatus ext upstream conditions w).2
    = mkWorld (ldapCalls w) (statusUpdates w ++ updates) (cacheSnapshots w)
    ∧ (length updates ≤ 1)%nat
    ∧ Forall (Check.updateOf upstream) updates.
Proof.
  rewrite StatusFacts.updateStatus_run. cbn [snd].
  case_bool_decide as Hsame.
  - exists []. rewrite app_nil_r. split; [apply world_eta|]. split; [simpl; lia|done].
  - eexists [_]. split; [done|]. split; [done|].
    apply Forall_singleton. unfold updatedUpstream, mergeConditions in *. simpl in *.
    repeat split; try done.
    + intros Heq. apply Hsame. destruct upstream as [? ? ? ? status].
      simpl in *. unfold withStatus. simpl. by rewrite Heq.
    + destruct (existsb _ conditions); auto.
Qed.

Lemma validateFinishedConfig_effects (ext : Externals)
    (upstream : LDAPIdentityProvider.t) (config : ProviderConfig.t)
    (version : string) (w : World) :
  ∃ calls,
    (validateFinishedConfig ext upstream config version w).2
    = mkWorld (ldapCalls w ++ calls) (statusUpdates w) (cacheSnapshots w)
    ∧ (calls = [] ∨ calls = [Check.connectionCall upstream config]).
Proof.
  destruct (hasPreviousSuccessfulConditionForCurrentSpecGenerationAndSecretVersion
              upstream version) eqn:Hprev.
  - exists []. unfold validateFinishedConfig. rewrite Hprev, app_nil_r.
    split; [apply world_eta|by left].
  - destruct (CheckFacts.check_run ext upstream config version w Hprev)
      as (cond & -> & _).
    eexists [_]. split; [done|by right].
Qed.

(** One provider: at most one LDAP call, at most one status update, the
    cache untouched. *)
Lemma validateUpstream_effects (ext : Externals) (c : ldapWatcherController)
    (upstream : LDAPIdentityProvider.t) (w : World) :
  ∃ calls updates,
    (validateUpstream ext c upstream w).2
    = mkWorld (ldapCalls w ++ calls) (statusUpdates w ++ updates) (cacheSnapshots w)
    ∧ (calls = []
       ∨ calls = [Check.connectionCall upstream (Run.finishedConfig ext c upstream)])
    ∧ (length updates ≤ 1)%nat
    ∧ Forall (Check.updateOf upstream) updates.
Proof.
  rewrite SyncFacts.validateUpstream_run. cbn [fst snd].
  destruct (Run.bothValid ext c upstream).
  - destruct (validateFinishedConfig_effects ext upstream
                (Run.finishedConfig ext c upstream)
                (Run.currentSecretVersion ext c upstream) w) as (calls & Hw1 & Hcalls).
    destruct (updateStatus_effects ext upstream (Run.computedConditions ext c upstream)
                (validateFinishedConfig ext upstream (Run.finishedConfig ext c upstream)
                   (Run.currentSecretVersion ext c upstream) w).2)
      as (updates & Hw2 & Hlen & Hupd).
    exists calls, updates. rewrite Hw2, Hw1. done.
  - destruct (updateStatus_effects ext upstream (Run.computedConditions ext c upstream) w)
      as (updates & Hw2 & Hlen & Hupd).
    exists [], updates. rewrite Hw2, app_nil_r. split; [done|]. split; [by left|done].
Qed.

(** The loop of [Sync]. *)
Lemma validateUpstreams_effects (ext : Externals) (c : ldapWatcherController)
    (ups : list LDAPIdentityProvider.t) (requeue : bool)
    (validated : list Provider) (w : World) :
  ∃ calls updates,
    (validateUpstreams ext c ups requeue validated w).2
    = mkWorld (ldapCalls w ++ calls) (statusUpdates w ++ updates) (cacheSnapshots w)
    ∧ (length calls ≤ length ups)%nat
    ∧ (length updates ≤ length ups)%nat
    ∧ Forall (λ call, ∃ upstream, upstream ∈ ups
                ∧ call = Check.connectionCall upstream (Run.finishedConfig ext c upstream))
        calls
    ∧ Forall (λ update, ∃ upstream, upstream ∈ ups ∧ Check.updateOf upstream update) updates.
Proof.
  revert requeue validated w.
  induction ups as [|upstream rest IH]; intros requeue validated w.
  - exists [], []. simpl. rewrite !app_nil_r.
    split; [apply world_eta|]. by repeat split.
  - simpl. unfold mbind, M_bind.
    destruct (validateUpstream_effects ext c upstream w)
      as (calls1 & updates1 & Hw1 & Hcalls1 & Hlen1 & Hupd1).
    destruct (validateUpstream ext c upstream w) as [valid w1]. simpl in Hw1. subst w1.
    assert (∀ requeue' validated',
              ∃ calls updates,
                (validateUpstreams ext c rest requeue' validated'
                   (mkWorld (ldapCalls w ++ calls1) (statusUpdates w ++ updates1)
                      (cacheSnapshots w))).2
                = mkWorld (ldapCalls w ++ calls) (statusUpdates w ++ updates)
                    (cacheSnapshots w)
                ∧ (length calls ≤ S (length rest))%nat
                ∧ (length updates ≤ S (length rest))%nat
                ∧ Forall (λ call, ∃ upstream', upstream' ∈ upstream :: rest
                            ∧ call = Check.connectionCall upstream'
                                       (Run.finishedConfig ext c upstream')) calls
                ∧ Forall (λ update, ∃ upstream', upstream' ∈ upstream :: rest
                            ∧ Check.updateOf upstream' update) updates) as Hrest.
    { intros requeue' validated'.
      destruct (IH requeue' validated'
                  (mkWorld (ldapCalls w ++ calls1) (statusUpdates w ++ updates1)
                     (cacheSnapshots w)))
        as (calls2 & updates2 & -> & Hlc & Hlu & Hc2 & Hu2).
      exists (calls1 ++ calls2), (updates1 ++ updates2). simpl.
      rewrite !app_assoc, !length_app.
      split; [done|].
      split; [destruct Hcalls1 as [->| ->]; simpl; lia|].
      split; [lia|].
      split; apply Forall_app; split.
      - destruct Hcalls1 as [->| ->]; [done|].
        apply Forall_singleton. exists upstream. split; [by left|done].
      - eapply Forall_impl; [exact Hc2|].
        intros call (upstream' & Hin & ->). exists upstream'. split; [by right|done].
      - eapply Forall_impl; [exact Hupd1|].
        intros update Hupdate. exists upstream. split; [by left|done].
      - eapply Forall_impl; [exact Hu2|].
        intros update (upstream' & Hin & Hupdate). exists upstream'.
        split; [by right|done]. }
    destruct valid; apply Hrest.
Qed.

Lemma validateUpstream_exact (ext : Externals) (c : ldapWatcherController)
    (upstream : LDAPIdentityProvider.t) (w : World) :
  ∃ calls updates,
    (validateUpstream ext c upstream w).2
    = mkWorld (ldapCalls w ++ calls) (statusUpdates w ++ updates) (cacheSnapshots w)
    ∧ Check.callsOf ext c upstream calls
    ∧ Check.updatesOf ext c upstream updates.
Proof.
  rewrite SyncFacts.validateUpstream_run. cbn [fst snd].
  assert (∀ w1, ∃ updates,
            (updateStatus ext upstream (Run.computedConditions ext c upstream) w1).2
            = mkWorld (ldapCalls w1) (statusUpdates w1 ++ updates) (cacheSnapshots w1)
            ∧ Check.updatesOf ext c upstream updates) as Hupdate.
  { intros w1. rewrite StatusFacts.updateStatus_run. cbn [snd].
    case_bool_decide as Hsame.
    - exists []. rewrite app_nil_r. split; [apply world_eta|by left].
    - eexists [_]. split; [done|]. right. split; [done|].
      destruct (updateStatus_effects ext upstream (Run.computedConditions ext c upstream) w1)
        as (updates & Hw & _ & Hall).
      rewrite StatusFacts.updateStatus_run in Hw. cbn [snd] in Hw.
      rewrite bool_decide_eq_false_2 in Hw by done.
      injection Hw as Hw. apply app_inv_head in Hw. subst updates.
      exact (Forall_inv Hall). }
  destruct (Run.bothValid ext c upstream) eqn:Hboth.
  - destruct (hasPreviousSuccessfulConditionForCurrentSpecGenerationAndSecretVersion
                upstream (Run.currentSecretVersion ext c upstream)) eqn:Hprev.
    + unfold validateFinishedConfig. rewrite Hprev. cbn [snd mret M_ret].
      destruct (Hupdate w) as (updates & -> & Hupdates).
      exists [], updates. rewrite app_nil_r. split; [done|]. split; [|done].
      split; [by left|]. split; [intros _|done].
      right. by apply SkipFacts.hasPrevious_iff.
    + destruct (CheckFacts.check_run ext upstream (Run.finishedConfig ext c upstream)
                  (Run.currentSecretVersion ext c upstream) w Hprev) as (cond & -> & _).
      cbn [snd].
      destruct (Hupdate (Check.withLDAPCall w
                           (Check.connectionCall upstream
                              (Run.finishedConfig ext c upstream))))
        as (updates & -> & Hupdates).
      eexists [_], updates. split; [done|]. split; [|done].
      split; [by right|]. split; [done|].
      intros [?|Hsome%SkipFacts.hasPrevious_iff]; congruence.
  - destruct (Hupdate w) as (updates & -> & Hupdates).
    exists [], updates. rewrite app_nil_r. split; [done|]. split; [|done].
    split; [by left|]. split; [by left|done].
Qed.

Lemma validateUpstreams_exact (ext : Externals) (c : ldapWatcherController)
    (ups : list LDAPIdentityProvider.t) (requeue : bool)
    (validated : list Provider) (w : World) :
  ∃ perCalls perUpdates,
    (validateUpstreams ext c ups requeue validated w).2
    = mkWorld (ldapCalls w ++ concat perCalls) (statusUpdates w ++ concat perUpdates)
        (cacheSnapshots w)
    ∧ Forall2 (Check.callsOf ext c) ups perCalls
    ∧ Forall2 (Check.updatesOf ext c) ups perUpdates.
Proof.
  revert requeue validated w.
  induction ups as [|upstream rest IH]; intros requeue validated w.
  - exists [], []. simpl. rewrite !app_nil_r.
    split; [apply world_eta|]. by split.
  - simpl. unfold mbind, M_bind.
    destruct (validateUpstream_exact ext c upstream w)
      as (calls1 & updates1 & Hw1 & Hcalls1 & Hupd1).
    destruct (validateUpstream ext c upstream w) as [valid w1]. simpl in Hw1. subst w1.
    assert (∀ requeue' validated',
              ∃ perCalls perUpdates,
                (validateUpstreams ext c rest requeue' validated'
                   (mkWorld (ldapCalls w ++ calls1) (statusUpdates w ++ updates1)
                      (cacheSnapshots w))).2
                = mkWorld (ldapCalls w ++ concat perCalls)
                    (statusUpdates w ++ concat perUpdates) (cacheSnapshots w)
                ∧ Forall2 (Check.callsOf ext c) (upstream :: rest) perCalls
                ∧ Forall2 (Check.updatesOf ext c) (upstream :: rest) perUpdates) as Hrest.
    { intros requeue' validated'.
      destruct (IH requeue' validated'
                  (mkWorld (ldapCalls w ++ calls1) (statusUpdates w ++ updates1)
                     (cacheSnapshots w)))
        as (perCalls & perUpdates & -> & Hc & Hu).
      exists (calls1 :: perCalls), (updates1 :: perUpdates). simpl.
      rewrite !app_assoc. split; [done|]. by split; constructor. }
    destruct valid; apply Hrest.
Qed.

Lemma concat_length_le {A B} (P : A → list B → Prop) (xs : list A)
    (per : list (list B)) :
  (∀ x l, P x l → (length l ≤ 1)%nat) →
  Forall2 P xs per → (length (concat per) ≤ length xs)%nat.
Proof.
  intros Hone Hall. induction Hall as [|x l xs per Hx _ IH]; simpl; [lia|].
  rewrite length_app. pose proof (Hone x l Hx). lia.
Qed.

End EffectFacts.

(** X7.  The effects of a sync, provider by provider.  [Sync] over a list
    of providers keeps what the world recorded before and hands the cache
    exactly one snapshot.  Each listed provider, in the order of the list,
    adds at most one LDAP call, the connection check with its finished
    configuration, and none exactly when one of its first two conditions
    is not True or a previous success is stored; and it adds at most one
    status update, the object that [updateStatus] builds for it, and none
    exactly when that object equals the stored one. *)
Theorem Sync_effects_bounded (ext : Externals) (c : ldapWatcherController)
    (ups : list LDAPIdentityProvider.t) (w : World) :
  ldapIdentityProviderInformer c = inr ups →
  ∃ perCalls perUpdates,
    (Sync ext c w).2
    = mkWorld (ldapCalls w ++ concat perCalls) (statusUpdates w ++ concat perUpdates)
        (cacheSnapshots w ++ [Run.validatedSet ext c ups])
    ∧ Forall2 (Check.callsOf ext c) ups perCalls
    ∧ Forall2 (Check.updatesOf ext c) ups perUpdates
    ∧ Forall (λ calls, (length calls ≤ 1)%nat) perCalls
    ∧ Forall (λ updates, (length updates ≤ 1)%nat) perUpdates
    ∧ (length (concat perCalls) ≤ length ups)%nat
    ∧ (length (concat perUpdates) ≤ length ups)%nat
    ∧ Forall (λ call, ∃ upstream, upstream ∈ ups
                ∧ call = Check.connectionCall upstream (Run.finishedConfig ext c upstream))
        (concat perCalls).
Proof.
  intros Hlist.
  destruct (SyncFacts.Sync_run ext c ups w Hlist) as [_ Hcache].
  revert Hcache. unfold Sync. rewrite Hlist. unfold mbind, M_bind.
  destruct (EffectFacts.validateUpstreams_exact ext c ups false [] w)
    as (perCalls & perUpdates & Hw1 & Hcalls & Hupdates).
  destruct (validateUpstreams ext c ups false [] w) as [[requeue validated] w1].
  simpl in Hw1. subst w1. unfold SetLDAPIdentityProviders. simpl.
  intros Hcache. exists perCalls, perUpdates.
  assert (∀ upstream calls, Check.callsOf ext c upstream calls → (length calls ≤ 1)%nat)
    as Hcall1.
  { intros upstream calls [[->| ->] _]; simpl; lia. }
  assert (∀ upstream updates,
            Check.updatesOf ext c upstream updates → (length updates ≤ 1)%nat) as Hupdate1.
  { intros upstream updates [[-> _]|[-> _]]; simpl; lia. }
  split; [destruct requeue; simpl in *; by rewrite Hcache|].
  split; [done|]. split; [done|].
  split.
  { clear -Hcalls Hcall1. induction Hcalls; constructor; eauto. }
  split.
  { clear -Hupdates Hupdate1. induction Hupdates; constructor; eauto. }
  split; [by eapply EffectFacts.concat_length_le|].
  split; [by eapply EffectFacts.concat_length_le|].
  clear -Hcalls.
  induction Hcalls as [|upstream calls rest per Hone _ IH]; simpl; [done|].
  apply Forall_app. split.
  - destruct Hone as [[->| ->] _]; [done|].
    apply Forall_singleton. exists upstream. split; [by left|done].
  - eapply Forall_impl; [exact IH|].
    intros call (upstream' & Hin & ->). exists upstream'. split; [by right|done].
Qed.

Lemma Sync_effects_bounded_witness :
  ∃ perCalls perUpdates,
    (Sync Sample.ext (Sample.controller [Sample.upstream; Sample.upstreamValidated]
                        Sample.secret) Sample.laterWorld).2
    = mkWorld (ldapCalls Sample.laterWorld ++ concat perCalls)
        (statusUpdates Sample.laterWorld ++ concat perUpdates)
        (cacheSnapshots Sample.laterWorld
         ++ [Run.validatedSet Sample.ext
               (Sample.controller [Sample.upstream; Sample.upstreamValidated]
                  Sample.secret)
               [Sample.upstream; Sample.upstreamValidated]])
    ∧ Forall (λ calls, (length calls ≤ 1)%nat) perCalls
    ∧ Forall (λ updates, (length updates ≤ 1)%nat) perUpdates
    ∧ length perCalls = 2%nat
    ∧ length perUpdates = 2%nat.
Proof.
  destruct (Sync_effects_bounded Sample.ext
              (Sample.controller [Sample.upstream; Sample.upstreamValidated] Sample.secret)
              [Sample.upstream; Sample.upstreamValidated] Sample.laterWorld eq_refl)
    as (perCalls & perUpdates & Hworld & Hcalls & Hupdates & Hc1 & Hu1 & _).
  exists perCalls, perUpdates.
  split; [exact Hworld|]. split; [exact Hc1|]. split; [exact Hu1|].
  split.
  - by rewrite <- (Forall2_length _ _ _ Hcalls).
  - by rewrite <- (Forall2_length _ _ _ Hupdates).
Defined.

(** X8.  A sync never rewrites a provider.  Every status update that
    [Sync] sends is a listed provider with its name, namespace, generation
    and spec unchanged and with a status that differs from the stored one,
    its phase Ready or Error. *)
Theorem Sync_updates_only_status (ext : Externals) (c : ldapWatcherController)
    (ups : list LDAPIdentityProvider.t) (w : World) :
  ldapIdentityProviderInformer c = inr ups →
  ∃ updates,
    statusUpdates (Sync ext c w).2 = statusUpdates w ++ updates
    ∧ ∀ update, update ∈ updates →
        ∃ upstream,
          upstream ∈ ups
          ∧ LDAPIdentityProvider.Name update = LDAPIdentityProvider.Name upstream
          ∧ LDAPIdentityProvider.Namespace update = LDAPIdentityProvider.Namespace upstream
          ∧ LDAPIdentityProvider.Generation update = LDAPIdentityProvider.Generation upstream
          ∧ LDAPIdentityProvider.Spec update = LDAPIdentityProvider.Spec upstream
          ∧ LDAPIdentityProvider.Status update ≠ LDAPIdentityProvider.Status upstream
          ∧ (LDAPIdentityProviderStatus.Phase (LDAPIdentityProvider.Status update)
             = LDAPPhaseReady
             ∨ LDAPIdentityProviderStatus.Phase (LDAPIdentityProvider.Status update)
               = LDAPPhaseError).
Proof.
  intros Hlist. unfold Sync. rewrite Hlist. unfold mbind, M_bind.
  destruct (EffectFacts.validateUpstreams_effects ext c ups false [] w)
    as (calls & updates & Hw1 & _ & _ & _ & Hupdates).
  destruct (validateUpstreams ext c ups false [] w) as [[requeue validated] w1].
  simpl in Hw1. subst w1. unfold SetLDAPIdentityProviders. simpl.
  exists updates. split; [by destruct requeue|].
  intros update Hin. rewrite Forall_forall in Hupdates.
  destruct (Hupdates update Hin) as (upstream & Hups & Hupdate).
  exists upstream. split; [done|exact Hupdate].
Qed.

Lemma Sync_updates_only_status_witness :
  ∃ updates,
    statusUpdates
      (Sync Sample.ext (Sample.controller [Sample.upstream] Sample.secret)
         Run.emptyWorld).2
    = statusUpdates Run.emptyWorld ++ updates
    ∧ ∀ update, update ∈ updates →
        ∃ upstream,
          upstream ∈ [Sample.upstream]
          ∧ LDAPIdentityProvider.Name update = LDAPIdentityProvider.Name upstream
          ∧ LDAPIdentityProvider.Namespace update = LDAPIdentityProvider.Namespace upstream
          ∧ LDAPIdentityProvider.Generation update = LDAPIdentityProvider.Generation upstream
          ∧ LDAPIdentityProvider.Spec update = LDAPIdentityProvider.Spec upstream
          ∧ LDAPIdentityProvider.Status update ≠ LDAPIdentityProvider.Status upstream
          ∧ (LDAPIdentityProviderStatus.Phase (LDAPIdentityProvider.Status update)
             = LDAPPhaseReady
             ∨ LDAPIdentityProviderStatus.Phase (LDAPIdentityProvider.Status update)
               = LDAPPhaseError).
Proof.
  apply (Sync_updates_only_status Sample.ext
           (Sample.controller [Sample.upstream] Sample.secret)
           [Sample.upstream] Run.emptyWorld).
  reflexivity.
Defined.

(** X9.  Which check is run.  A validation that finds no previous success
    makes exactly one LDAP call on a provider built from the finished
    configuration: a dry-run authentication of the configured user when
    [dryRunAuthenticationUsername] is set, a connection test otherwise.
    The condition it returns has type LDAPConnectionValid and is True when
    the server accepts and False when it does not. *)
Theorem check_call_and_outcome (ext : Externals) (upstream : LDAPIdentityProvider.t)
    (config : ProviderConfig.t) (version : string) (w : World) :
  (¬ ∃ stored, Run.previousSuccess upstream version stored) →
  ∃ cond,
    validateFinishedConfig ext upstream config version w
    = (Some cond,
       mkWorld
         (ldapCalls w ++
          [if is_empty (LDAPIdentityProviderSpec.DryRunAuthenticationUsername
                          (LDAPIdentityProvider.Spec upstream))
           then CallTestConnection (New config)
           else CallDryRunAuthenticateUser (New config)
                  (LDAPIdentityProviderSpec.DryRunAuthenticationUsername
                     (LDAPIdentityProvider.Spec upstream))])
         (statusUpdates w) (cacheSnapshots w))
    ∧ Condition.Type_ cond = typeLDAPConnectionValid
    ∧ (Condition.Status cond = ConditionTrue
       ↔ Check.serverAccepts ext upstream config = true)
    ∧ (Condition.Status cond = ConditionFalse
       ↔ Check.serverAccepts ext upstream config = false).
Proof.
  intros Hnone.
  assert (hasPreviousSuccessfulConditionForCurrentSpecGenerationAndSecretVersion
            upstream version = false) as Hprev.
  { destruct (hasPreviousSuccessfulConditionForCurrentSpecGenerationAndSecretVersion
                upstream version) eqn:Hprev; [|done].
    by apply SkipFacts.hasPrevious_iff in Hprev. }
  destruct (CheckFacts.check_run ext upstream config version w Hprev)
    as (cond & Hrun & Htype & Hstatus).
  exists cond. split; [exact Hrun|]. split; [done|].
  rewrite Hstatus. by destruct (Check.serverAccepts ext upstream config).
Qed.

Lemma check_call_and_outcome_witness :
  ∃ cond,
    validateFinishedConfig Sample.extNotFound Sample.upstreamDryRun Sample.config "42"
      Run.emptyWorld
    = (Some cond,
       mkWorld [CallDryRunAuthenticateUser (New Sample.config) "pinny"] [] [])
    ∧ Condition.Status cond = ConditionFalse.
Proof.
  destruct (check_call_and_outcome Sample.extNotFound Sample.upstreamDryRun
              Sample.config "42" Run.emptyWorld)
    as (cond & Hrun & _ & _ & Hfalse).
  - intros (stored & Hin & _). by apply elem_of_nil in Hin.
  - exists cond. split; [exact Hrun|]. by apply Hfalse.
Defined.

(** X10.  The conditions of one provider.  [validateUpstream] hands
    [updateStatus] two or three conditions, of the types BindSecretValid,
    TLSConfigurationValid and, only when both are True, LDAPConnectionValid,
    in that order; no type occurs twice and every status is True or False,
    never Unknown. *)
Theorem computed_conditions_shape (ext : Externals) (c : ldapWatcherController)
    (upstream : LDAPIdentityProvider.t) :
  (Condition.Type_ <$> Run.computedConditions ext c upstream
   = [typeBindSecretValid; typeTLSConfigurationValid]
   ∨ (Condition.Type_ <$> Run.computedConditions ext c upstream
      = [typeBindSecretValid; typeTLSConfigurationValid; typeLDAPConnectionValid]
      ∧ Condition.Status (Run.secretValidCondition ext c upstream) = ConditionTrue
      ∧ Condition.Status (Run.tlsValidCondition ext c upstream) = ConditionTrue))
  ∧ NoDup (Condition.Type_ <$> Run.computedConditions ext c upstream)
  ∧ Forall (λ cond, Condition.Status cond = ConditionTrue
                    ∨ Condition.Status cond = ConditionFalse)
      (Run.computedConditions ext c upstream).
Proof.
  destruct (ValidatorFacts.validateSecret_status ext c upstream
              (newProviderConfig c upstream)) as [Hst Hss].
  destruct (ValidatorFacts.validateTLSConfig_status ext upstream
              (Run.configAfterSecret ext c upstream)) as [Htt Hts].
  fold (Run.secretValidCondition ext c upstream) in Hst, Hss.
  fold (Run.tlsValidCondition ext c upstream) in Htt, Hts.
  assert (NoDup [typeBindSecretValid; typeTLSConfigurationValid]) as Hnodup2.
  { apply NoDup_cons. split; [|apply NoDup_singleton].
    intros [?|?%elem_of_nil]%elem_of_cons; done. }
  assert (NoDup [typeBindSecretValid; typeTLSConfigurationValid; typeLDAPConnectionValid])
    as Hnodup3.
  { apply NoDup_cons. split; [|apply NoDup_cons; split; [|apply NoDup_singleton]].
    - intros [?|[?|?%elem_of_nil]%elem_of_cons]%elem_of_cons; done.
    - intros [?|?%elem_of_nil]%elem_of_cons; done. }
  unfold Run.computedConditions, Run.bothValid.
  case_bool_decide as Hs; simpl; [case_bool_decide as Ht; simpl|].
  - destruct (hasPreviousSuccessfulConditionForCurrentSpecGenerationAndSecretVersion
                upstream (Run.currentSecretVersion ext c upstream)) eqn:Hprev.
    + unfold validateFinishedConfig. rewrite Hprev. simpl. rewrite Hst, Htt.
      split; [by left|]. split; [done|].
      by repeat first [apply Forall_nil | apply Forall_cons; split].
    + destruct (CheckFacts.check_run ext upstream (Run.finishedConfig ext c upstream)
                  (Run.currentSecretVersion ext c upstream) Run.emptyWorld Hprev)
        as (cond & -> & Htype & Hstatus).
      simpl. rewrite Hst, Htt, Htype.
      split; [by right|]. split; [done|].
      repeat first [apply Forall_nil | apply Forall_cons; split]; try done.
      rewrite Hstatus. destruct (Check.serverAccepts _ _ _); auto.
  - rewrite Hst, Htt. split; [by left|]. split; [done|].
    by repeat first [apply Forall_nil | apply Forall_cons; split].
  - rewrite Hst, Htt. split; [by left|]. split; [done|].
    by repeat first [apply Forall_nil | apply Forall_cons; split].
Qed.

(** X11.  No error means everyone is in.  When the lister returns a list,
    the cache never gets more records than there are providers, and [Sync]
    returns no error exactly when it published one record per listed
    provider. *)
Theorem Sync_nil_iff_all_published (ext : Externals) (c : ldapWatcherController)
    (ups : list LDAPIdentityProvider.t) (w : World) :
  ldapIdentityProviderInformer c = inr ups →
  (length (idpCache (Sync ext c w).2) ≤ length ups)%nat
  ∧ ((Sync ext c w).1 = None ↔ length (idpCache (Sync ext c w).2) = length ups)
  ∧ ((Sync ext c w).1 = Some ErrSyntheticRequeue
     ↔ (length (idpCache (Sync ext c w).2) < length ups)%nat).
Proof.
  intros Hlist.
  destruct (SyncFacts.Sync_run ext c ups w Hlist) as [-> Hcache].
  unfold idpCache. rewrite Hcache, last_snoc. simpl.
  unfold Run.validatedSet. rewrite length_fmap.
  clear Hcache Hlist.
  induction ups as [|upstream rest (IHle & IHnone & IHsome)]; simpl.
  - split; [lia|]. split; [done|]. split; [done|lia].
  - destruct (Run.hadErrorCondition ext c upstream) eqn:Herr.
    + rewrite filter_cons_False by (by rewrite Herr). simpl.
      split; [lia|]. split; [split; [done|lia]|]. split; [lia|done].
    + rewrite filter_cons_True by done. simpl.
      destruct (existsb (Run.hadErrorCondition ext c) rest).
      * split; [lia|]. split; [split; [done|]|split; [intros _|done]].
        -- intros Heq. assert (Some ErrSyntheticRequeue = @None error) as H; [|done].
           apply IHnone. lia.
        -- assert (length (filter (λ upstream0, Run.hadErrorCondition ext c upstream0 = false)
                             rest) < length rest)%nat by by apply IHsome.
           lia.
      * split; [lia|]. split; [split; [intros _|done]|split; [done|]].
        -- f_equal. by apply IHnone.
        -- intros Hlt. assert (@None error = Some ErrSyntheticRequeue) as H; [|done].
           apply IHsome. lia.
Qed.

Lemma Sync_nil_iff_all_published_witness :
  (Sync Sample.ext (Sample.controller [Sample.upstream] Sample.opaqueSecret)
     Run.emptyWorld).1 = Some ErrSyntheticRequeue.
Proof.
  destruct (Sync_nil_iff_all_published Sample.ext
              (Sample.controller [Sample.upstream] Sample.opaqueSecret)
              [Sample.upstream] Run.emptyWorld) as (_ & _ & Hrequeue);
    [reflexivity|].
  apply Hrequeue. vm_compute. lia.
Defined.

(** * The agent pods of the integration test *)

Module KubeCertAgentFacts.
Import KubeCertAgent.

(** The flag only ever goes down, and it goes down at the first pod that is
    not running. *)
Lemma allRunningLoop_true (items : list Pod) (allRunning : bool) :
  allRunningLoop items allRunning = true
  ↔ allRunning = true ∧ Forall (λ pod, Status_Phase pod = PodRunning) items.
Proof.
  revert allRunning. induction items as [|pod rest IH]; intros allRunning; simpl.
  - split; [by intros ->|by intros [-> _]].
  - rewrite IH, Forall_cons. case_bool_decide as Hphase; simpl.
    + tauto.
    + split; [by intros [? _]|by intros [_ [? _]]].
Qed.

End KubeCertAgentFacts.

(** X12.  The condition that [waitForAllAgentsRunning] polls reports
    success exactly when the pods could be listed, there is at least one
    agent pod and every one of them is in phase Running; a list error is
    handed on with a false answer, and an empty list or a pod in another
    phase gives false without an error, so that the poll goes on. *)
Theorem allAgentsRunning_true_iff (listed : error + list KubeCertAgent.Pod) :
  (KubeCertAgent.allAgentsRunning listed = (true, None)
   ↔ ∃ items, listed = inr items ∧ items ≠ []
       ∧ Forall (λ pod, KubeCertAgent.Status_Phase pod = KubeCertAgent.PodRunning) items)
  ∧ (∀ err, listed = inl err →
       KubeCertAgent.allAgentsRunning listed = (false, Some err))
  ∧ (∀ items, listed = inr items →
       (KubeCertAgent.allAgentsRunning listed).2 = None).
Proof.
  unfold KubeCertAgent.allAgentsRunning.
  destruct listed as [err|items].
  - split; [|split; [by intros ? [= <-]|done]].
    split; [done|]. by intros (items & ? & _).
  - split; [|split; [done|]].
    + destruct items as [|pod rest]; simpl.
      * split; [done|]. by intros (items & [= <-] & ? & _).
      * split.
        -- intros [= Hloop].
           apply (KubeCertAgentFacts.allRunningLoop_true (pod :: rest) true) in Hloop
             as [_ Hall].
           by exists (pod :: rest).
        -- intros (items & [= <-] & _ & Hall). f_equal.
           by apply (KubeCertAgentFacts.allRunningLoop_true (pod :: rest) true).
    + intros items' _. by destruct (length items =? 0)%nat.
Qed.
